(** * Schema introspection for two database backends

    A shallow embedding of [postgresql_mcp/db.py], [postgresql_mcp/__main__.py],
    [scylladb_mcp/db.py] and [scylladb_mcp/__main__.py].

    Python strings are [string]s, configuration dictionaries and the process
    environment are [gmap string string], integers are [Z].  A method of
    [DatabaseManager] is a function from the manager's fields to an outcome
    (a returned value or a raised exception), the fields afterwards and the
    list of calls it made to the database driver and to the logger, in
    program order. *)

From Stdlib Require Import ZArith Ascii String List Permutation Sorted.
From Stdlib Require OrderedTypeEx.
From stdpp Require Import base decidable option list strings gmap.

Local Open Scope string_scope.
Local Open Scope Z_scope.

(** ** Python exceptions and outcomes *)

(** The exceptions the modules raise or let through: [ValueError], raised by
    the identifier validator, by [get_db] and by [int]; the driver's own
    error ([psycopg2.Error] for the relational backend, whatever the
    Cassandra driver raises for the wide-column one); and the interpreter's
    [AttributeError] and [KeyError]. *)
Inductive exn : Type :=
| ValueError (msg : string)
| DriverError (msg : string)
| AttributeError (msg : string)
| KeyError (msg : string).

Inductive result (A : Type) : Type :=
| Return (a : A)
| Raise (e : exn).
Arguments Return {A} a.
Arguments Raise {A} e.

(** [str(e)] inside an f-string. *)
Definition exn_str (e : exn) : string :=
  match e with
  | ValueError m | DriverError m | AttributeError m | KeyError m => m
  end.

(** ** The regular expression of the identifier validator

    Both modules test [re.match(r"^[a-zA-Z0-9_]+$", name)]. *)
Module Re.

Definition in_range (lo hi c : ascii) : bool :=
    (nat_of_ascii lo <=? nat_of_ascii c)%nat && (nat_of_ascii c <=? nat_of_ascii hi)%nat.

  (** The character class [[a-zA-Z0-9_]]. *)
Definition name_class (c : ascii) : bool :=
    in_range "a" "z" c || in_range "A" "Z" c || in_range "0" "9" c
    || Ascii.eqb c "_".

  (** Line feed, the only character Python's [$] treats specially. *)
Definition LF : ascii := ascii_of_nat 10.

  (** [$] without [re.MULTILINE]: it matches at the end of the string and
      just before a line feed that is the last character of the string
      (Python library reference, module [re]).  [rest] is what is left of
      the subject at the position tested. *)
Definition dollar (rest : string) : bool :=
    match rest with
    | EmptyString => true
    | String c EmptyString => Ascii.eqb c LF
    | _ => false
    end.

  (** [[a-zA-Z0-9_]+$] tried at the head of [s]: one character of the class,
      then either more of the same or the end anchor.  Backtracking over the
      length taken by [+] is the disjunction. *)
Fixpoint class_plus_dollar (s : string) : bool :=
    match s with
    | EmptyString => false
    | String c rest => name_class c && (class_plus_dollar rest || dollar rest)
    end.

  (** [re.match] anchors at position 0, where [^] holds; the result is
      tested for truth only. *)
Definition match_name (s : string) : bool := class_plus_dollar s.

  (** Every character of [s] is in the class. *)
Fixpoint all_class (s : string) : bool :=
    match s with
    | EmptyString => true
    | String c rest => name_class c && all_class rest
    end.

End Re.

(** ** The identifier validator, [DatabaseManager.validate_name]

    The two modules define it with the same body:
    [if not re.match(...): raise ValueError(f"Invalid {type_desc}: {name}")]. *)
Definition validate_name (name : string) (type_desc : string) : result unit :=
  if negb (Re.match_name name)
  then Raise (ValueError ("Invalid " ++ type_desc ++ ": " ++ name))
  else Return tt.

(** ** State, exceptions and the record of driver calls

    A method body is a computation over the manager's fields [S] that also
    appends events of type [E]; a raised exception keeps the fields and the
    events produced so far, as in Python. *)
Section StateExn.
Context {S E : Type}.

Definition M (A : Type) : Type := S -> result A * S * list E.

Definition ret {A} (a : A) : M A := fun s => (Return a, s, []).
Definition raise {A} (e : exn) : M A := fun s => (Raise e, s, []).
Definition lift {A} (r : result A) : M A := fun s => (r, s, []).
Definition get : M S := fun s => (Return s, s, []).
Definition put (s' : S) : M unit := fun _ => (Return tt, s', []).
Definition emit (ev : E) : M unit := fun s => (Return tt, s, [ev]).

Definition bind {A B} (c : M A) (k : A -> M B) : M B := fun s =>
    match c s with
    | (Return a, s1, t1) => let '(r, s2, t2) := k a s1 in (r, s2, (t1 ++ t2)%list)
    | (Raise e, s1, t1) => (Raise e, s1, t1)
    end.

  (** [try: body / except <catches> as e: handler e]. *)
Definition try_except {A} (body : M A) (catches : exn -> bool)
      (handler : exn -> M A) : M A := fun s =>
    match body s with
    | (Raise e, s1, t1) =>
        if catches e
        then let '(r, s2, t2) := handler e s1 in (r, s2, (t1 ++ t2)%list)
        else (Raise e, s1, t1)
    | done => done
    end.
End StateExn.

Declare Scope py_scope.
Delimit Scope py_scope with py.
Notation "x <- c ;; k" := (bind c (fun x => k))
  (at level 100, c at next level, right associativity) : py_scope.
Notation "c ;; k" := (bind c (fun _ => k))
  (at level 100, right associativity) : py_scope.
Local Open Scope py_scope.

Definition outcome {A S E} (x : result A * S * list E) : result A := x.1.1.
Definition fields {A S E} (x : result A * S * list E) : S := x.1.2.
Definition trace {A S E} (x : result A * S * list E) : list E := x.2.

(** ** Stable sorting

    [list.sort] and [sorted] compare with [<] only and are stable: they
    return the ascending arrangement of the input in which elements that
    compare equal keep their input order.  That arrangement is computed here
    by insertion from the right: an element passes the elements smaller than
    it and stops in front of the first one that is not, hence in front of
    its equals that came later in the input. *)
Section StableSort.
Context {A : Type} (ltb : A -> A -> bool).

Fixpoint insert_sorted (x : A) (l : list A) : list A :=
    match l with
    | [] => [x]
    | y :: l' => if ltb y x then y :: insert_sorted x l' else x :: y :: l'
    end.

Definition stable_sort (l : list A) : list A := foldr insert_sorted [] l.
End StableSort.

(** [sorted(l, key=key)] and [l.sort(key=key)]. *)
Definition sort_by {A K : Type} (key : A -> K) (ltb : K -> K -> bool)
    (l : list A) : list A :=
  stable_sort (fun a b => ltb (key a) (key b)) l.

(** Python truth value of a string, of an optional string ([dict.get]) and
    of an integer. *)
Definition str_truthy (s : string) : bool :=
  match s with EmptyString => false | _ => true end.
Definition opt_truthy (o : option string) : bool :=
  match o with Some s => str_truthy s | None => false end.
Definition int_truthy (z : Z) : bool := negb (z =? 0).

(** ** The relational backend, [postgresql_mcp/db.py] *)
Module Postgres.

  (** The five catalog queries, named after the relation they read. *)
Inductive query : Type :=
  | Q_schemata      (* SELECT schema_name FROM information_schema.schemata ... *)
  | Q_tables        (* SELECT table_name FROM information_schema.tables ... *)
  | Q_columns       (* SELECT column_name, ... FROM information_schema.columns ... *)
  | Q_indexes       (* SELECT indexname, indexdef FROM pg_indexes ... *)
  | Q_constraints.  (* SELECT conname ..., pg_get_constraintdef(c.oid) ... *)

  (** A psycopg2 connection object: [closed] is 0 while it is open, and
      [readonly] is what [set_session(readonly=True)] turns on. *)
Record connection : Type := Connection { closed : Z; readonly : bool }.

Record column_row : Type := ColumnRow {
    column_name : string;
    data_type : string;
    is_nullable : string;
    column_default : option string
  }.
Record index_row : Type := IndexRow { indexname : string; indexdef : string }.
Record constraint_row : Type :=
    ConstraintRow { constraint_name : string; constraint_def : string }.

  (** Calls made to psycopg2 and to the logger.  [Execute] records the
      connection object the statement is sent on. *)
Inductive event : Type :=
  | Connect (cfg : gmap string string)   (* psycopg2.connect with the configuration as keyword arguments *)
  | SetSession                           (* conn.set_session(readonly=True) *)
  | Execute (c : connection) (q : query) (params : list string)
  | Close                                (* conn.close() *)
  | LogError (msg : string).

  (** What the driver and the server answer during one method call. *)
Record driver : Type := Driver {
    on_connect : result unit;
    on_set_session : result unit;
    on_schemata : result (list string);
    on_tables : string -> result (list string);
    on_columns : string -> string -> result (list column_row);
    on_indexes : string -> string -> result (list index_row);
    on_constraints : string -> string -> result (list constraint_row)
  }.

Record DatabaseManager : Type := Manager {
    db_config : gmap string string;
    conn : option connection
  }.

  (** [__init__] *)
Definition init (cfg : gmap string string) : DatabaseManager := Manager cfg None.

Definition set_conn (c : option connection) : M (S:=DatabaseManager) (E:=event) unit :=
    m <- get ;; put (Manager (db_config m) c).

  (** [except psycopg2.Error] *)
Definition is_psycopg2_error (e : exn) : bool :=
    match e with DriverError _ => true | _ => false end.

  (** [not self.conn or self.conn.closed] *)
Definition needs_connect (m : DatabaseManager) : bool :=
    match conn m with
    | None => true
    | Some c => int_truthy (closed c)
    end.

Definition connect (d : driver) : M (S:=DatabaseManager) (E:=event) unit :=
    m <- get ;;
    if needs_connect m then
      try_except
        (emit (Connect (db_config m)) ;;
         lift (on_connect d) ;;
         set_conn (Some (Connection 0 false)) ;;
         emit SetSession ;;
         lift (on_set_session d) ;;
         set_conn (Some (Connection 0 true)))
        is_psycopg2_error
        (fun e =>
           emit (LogError ("Error connecting to database: " ++ exn_str e)) ;;
           raise e)
    else ret tt.

Definition close : M (S:=DatabaseManager) (E:=event) unit :=
    m <- get ;;
    match conn m with
    | Some c =>
        if negb (int_truthy (closed c))
        then emit Close ;; set_conn (Some (Connection 1 (readonly c)))
        else ret tt
    | None => ret tt
    end.

  (** [with self.conn.cursor(...) as cur: cur.execute(query, params)] followed
      by [cur.fetchall()]; [answer] is what the server replies. *)
Definition cursor_execute {A} (q : query) (params : list string)
      (answer : result A) : M (S:=DatabaseManager) (E:=event) A :=
    m <- get ;;
    match conn m with
    | None => raise (AttributeError "'NoneType' object has no attribute 'cursor'")
    | Some c =>
        if int_truthy (closed c)
        then raise (DriverError "connection already closed")
        else emit (Execute c q params) ;; lift answer
    end.

  (** The [try: ... except psycopg2.Error as e: logger.error(msg); raise]
      frame every operation ends with. *)
Definition logged {A} (what : string) (body : M (S:=DatabaseManager) (E:=event) A)
      : M (S:=DatabaseManager) (E:=event) A :=
    try_except body is_psycopg2_error
      (fun e => emit (LogError (what ++ ": " ++ exn_str e)) ;; raise e).

Definition list_schemas (d : driver) : M (list string) :=
    connect d ;;
    logged "Error listing schemas"
      (cursor_execute Q_schemata [] (on_schemata d)).

Definition list_tables (d : driver) (schema : string) : M (list string) :=
    lift (validate_name schema "schema name") ;;
    connect d ;;
    logged ("Error listing tables in schema '" ++ schema ++ "'")
      (cursor_execute Q_tables [schema] (on_tables d schema)).

Definition describe_table (d : driver) (schema table : string)
      : M (list column_row) :=
    lift (validate_name schema "schema name") ;;
    lift (validate_name table "table name") ;;
    connect d ;;
    logged ("Error describing table '" ++ schema ++ "." ++ table ++ "'")
      (cursor_execute Q_columns [schema; table] (on_columns d schema table)).

Definition get_table_indexes (d : driver) (schema table : string)
      : M (list index_row) :=
    lift (validate_name schema "schema name") ;;
    lift (validate_name table "table name") ;;
    connect d ;;
    logged ("Error getting indexes for table '" ++ schema ++ "." ++ table ++ "'")
      (cursor_execute Q_indexes [schema; table] (on_indexes d schema table)).

Definition get_table_constraints (d : driver) (schema table : string)
      : M (list constraint_row) :=
    lift (validate_name schema "schema name") ;;
    lift (validate_name table "table name") ;;
    connect d ;;
    logged ("Error getting constraints for table '" ++ schema ++ "." ++ table ++ "'")
      (cursor_execute Q_constraints [schema; table] (on_constraints d schema table)).

  (** *** The schema query on the server

      [WHERE schema_name NOT IN ('information_schema', 'pg_catalog')
       AND schema_name NOT LIKE 'pg_toast%%' AND schema_name NOT LIKE 'pg_temp%%'
       ORDER BY schema_name].  [cur.execute(query)] is called without
      arguments, so the text reaches the server as written. *)

  (** SQL [LIKE]: [%] matches any run of characters, [_] any one character,
      anything else itself.  The source's patterns hold no escape character. *)
Fixpoint sql_like (pat s : string) {struct pat} : bool :=
    match pat with
    | EmptyString => match s with EmptyString => true | _ => false end
    | String p pat' =>
        if Ascii.eqb p "%" then
          (fix skip (s : string) : bool :=
             sql_like pat' s
             || match s with EmptyString => false | String _ s' => skip s' end) s
        else
          match s with
          | EmptyString => false
          | String c s' => (Ascii.eqb p "_" || Ascii.eqb p c) && sql_like pat' s'
          end
    end.

Definition schemata_where (schema_name : string) : bool :=
    negb (bool_decide (schema_name ∈ ["information_schema"; "pg_catalog"]))
    && negb (sql_like "pg_toast%%" schema_name)
    && negb (sql_like "pg_temp%%" schema_name).

Definition schemata_select (catalog : list string) : list string :=
    stable_sort String.ltb (List.filter schemata_where catalog).

  (** A server whose catalog holds the schemas [catalog] and that accepts
      the connection. *)
Definition serving (catalog : list string) : driver :=
    {| on_connect := Return tt;
       on_set_session := Return tt;
       on_schemata := Return (schemata_select catalog);
       on_tables := fun _ => Return [];
       on_columns := fun _ _ => Return [];
       on_indexes := fun _ _ => Return [];
       on_constraints := fun _ _ => Return [] |}.

End Postgres.

(** ** The wide-column backend, [scylladb_mcp/db.py] *)
Module Scylla.

Inductive query : Type :=
  | Q_keyspaces   (* SELECT keyspace_name FROM system_schema.keyspaces WHERE ... NOT IN (...) *)
  | Q_tables      (* SELECT table_name FROM system_schema.tables ... *)
  | Q_columns     (* SELECT column_name, type, kind, position FROM system_schema.columns ... *)
  | Q_indexes     (* SELECT index_name, kind, options FROM system_schema.indexes ... *)
  | Q_views.      (* SELECT view_name, base_table_name FROM system_schema.views ... *)

  (** Driver objects: both carry the flag [is_shutdown]. *)
Record session : Type := Session { is_shutdown : bool }.
Record cluster : Type := Cluster { cluster_is_shutdown : bool }.

  (** A row of [system_schema.columns] and the dictionary built from it;
      [position] is an integer or [None]. *)
Record column_row : Type := ColumnRow {
    row_column_name : string;
    row_type : string;
    row_kind : string;
    row_position : option Z
  }.
Record column : Type := Column {
    column_name : string;
    type_ : string;
    kind : string;
    position : option Z
  }.

Record index_row : Type := IndexRow {
    row_index_name : string;
    row_index_kind : string;
    row_options : option (list (string * string))
  }.
Record index : Type := Index {
    index_name : string;
    index_kind : string;
    options : string
  }.

Record view : Type := View { view_name : string; base_table_name : string }.

Inductive event : Type :=
  | NewCluster (contact_points : list string) (port : Z)
      (auth_provider : option (string * string))
  | ClusterConnect                           (* self.cluster.connect() *)
  | Execute (q : query) (params : list string)
  | SessionShutdown                          (* self.session.shutdown() *)
  | ClusterShutdown                          (* self.cluster.shutdown() *)
  | LogInfo (msg : string)
  | LogError (msg : string).

Record driver : Type := Driver {
    on_new_cluster : result unit;
    on_connect : result unit;
    on_keyspaces : result (list string);
    on_tables : string -> result (list string);
    on_columns : string -> string -> result (list column_row);
    on_indexes : string -> string -> result (list index_row);
    on_views : string -> result (list view)
  }.

Record DatabaseManager : Type := Manager {
    db_config : gmap string string;
    the_cluster : option cluster;
    the_session : option session
  }.

Definition init (cfg : gmap string string) : DatabaseManager :=
    Manager cfg None None.

Definition set_cluster (c : option cluster) : M (S:=DatabaseManager) (E:=event) unit :=
    m <- get ;; put (Manager (db_config m) c (the_session m)).
Definition set_session (s : option session) : M (S:=DatabaseManager) (E:=event) unit :=
    m <- get ;; put (Manager (db_config m) (the_cluster m) s).

  (** [int(s)] on a decimal literal with an optional sign. *)
Fixpoint parse_digits (acc : Z) (s : string) : option Z :=
    match s with
    | EmptyString => Some acc
    | String c rest =>
        if Re.in_range "0" "9" c
        then parse_digits (10 * acc + (Z.of_nat (nat_of_ascii c) - 48)) rest
        else None
    end.
Definition py_int (s : string) : result Z :=
    let bad := Raise (ValueError ("invalid literal for int() with base 10: '" ++ s ++ "'")) in
    let digits (sign : Z) (ds : string) :=
      match ds with
      | EmptyString => bad
      | _ => match parse_digits 0 ds with Some z => Return (sign * z) | None => bad end
      end in
    match s with
    | String c rest =>
        if Ascii.eqb c "-" then digits (-1) rest
        else if Ascii.eqb c "+" then digits 1 rest
        else digits 1 s
    | EmptyString => bad
    end.

  (** [not self.session or self.session.is_shutdown] *)
Definition needs_connect (m : DatabaseManager) : bool :=
    match the_session m with
    | None => true
    | Some s => is_shutdown s
    end.

  (** [except Exception] *)
Definition is_exception (e : exn) : bool := true.

Definition connect (d : driver) : M (S:=DatabaseManager) (E:=event) unit :=
    m <- get ;;
    if needs_connect m then
      try_except
        (let cfg := db_config m in
         let contact_points := [default "localhost" (cfg !! "host")] in
         port <- lift (py_int (default "9042" (cfg !! "port"))) ;;
         let auth_provider :=
           if opt_truthy (cfg !! "user") && opt_truthy (cfg !! "password")
           then Some (default "" (cfg !! "user"), default "" (cfg !! "password"))
           else None in
         emit (NewCluster contact_points port auth_provider) ;;
         lift (on_new_cluster d) ;;
         set_cluster (Some (Cluster false)) ;;
         emit ClusterConnect ;;
         lift (on_connect d) ;;
         set_session (Some (Session false)) ;;
         emit (LogInfo "Connected to ScyllaDB cluster"))
        is_exception
        (fun e =>
           emit (LogError ("Error connecting to ScyllaDB: " ++ exn_str e)) ;;
           raise e)
    else ret tt.

  (** The driver's [Session.shutdown] and [Cluster.shutdown]: each returns at
      once on an object already shut down, and shutting a cluster down shuts
      down the session opened from it. *)
Definition session_shutdown : M (S:=DatabaseManager) (E:=event) unit :=
    emit SessionShutdown ;; set_session (Some (Session true)).

Definition cluster_shutdown (c : cluster) : M (S:=DatabaseManager) (E:=event) unit :=
    emit ClusterShutdown ;;
    if cluster_is_shutdown c then ret tt
    else
      m <- get ;;
      put (Manager (db_config m) (Some (Cluster true))
             (match the_session m with Some _ => Some (Session true) | None => None end)).

Definition close : M (S:=DatabaseManager) (E:=event) unit :=
    m <- get ;;
    (match the_session m with
     | Some s => if negb (is_shutdown s) then session_shutdown else ret tt
     | None => ret tt
     end) ;;
    m' <- get ;;
    match the_cluster m' with
    | Some c => cluster_shutdown c
    | None => ret tt
    end.

  (** [self.session.execute(query, params)] *)
Definition session_execute {A} (q : query) (params : list string)
      (answer : result A) : M (S:=DatabaseManager) (E:=event) A :=
    m <- get ;;
    match the_session m with
    | None => raise (AttributeError "'NoneType' object has no attribute 'execute'")
    | Some s =>
        if is_shutdown s
        then raise (DriverError "Session is already shut down")
        else emit (Execute q params) ;; lift answer
    end.

  (** [try: ... except Exception as e: logger.error(msg); raise] *)
Definition logged {A} (what : string) (body : M (S:=DatabaseManager) (E:=event) A)
      : M (S:=DatabaseManager) (E:=event) A :=
    try_except body is_exception
      (fun e => emit (LogError (what ++ ": " ++ exn_str e)) ;; raise e).

Definition list_keyspaces (d : driver) : M (list string) :=
    connect d ;;
    logged "Error listing keyspaces"
      (rows <- session_execute Q_keyspaces [] (on_keyspaces d) ;;
       ret (stable_sort String.ltb rows)).

Definition list_tables (d : driver) (keyspace : string) : M (list string) :=
    lift (validate_name keyspace "keyspace name") ;;
    connect d ;;
    logged ("Error listing tables in keyspace '" ++ keyspace ++ "'")
      (rows <- session_execute Q_tables [keyspace] (on_tables d keyspace) ;;
       ret (stable_sort String.ltb rows)).

  (** The sort key of [describe_table]:
      [(0 if kind == "partition_key" else 1 if kind == "clustering"
        else 2 if kind == "static" else 3,
        position if position is not None else 999)]. *)
Definition kind_rank (k : string) : Z :=
    if String.eqb k "partition_key" then 0
    else if String.eqb k "clustering" then 1
    else if String.eqb k "static" then 2
    else 3.
Definition position_key (p : option Z) : Z :=
    match p with Some z => z | None => 999 end.
Definition sort_key (x : column) : Z * Z :=
    (kind_rank (kind x), position_key (position x)).

  (** [<] on pairs of integers. *)
Definition pair_ltb (a b : Z * Z) : bool :=
    (a.1 <? b.1) || ((a.1 =? b.1) && (a.2 <? b.2)).

Definition to_column (r : column_row) : column :=
    Column (row_column_name r) (row_type r) (row_kind r) (row_position r).

Definition sort_columns (columns : list column) : list column :=
    sort_by sort_key pair_ltb columns.

Definition describe_table (d : driver) (keyspace table : string)
      : M (list column) :=
    lift (validate_name keyspace "keyspace name") ;;
    lift (validate_name table "table name") ;;
    connect d ;;
    logged ("Error describing table '" ++ keyspace ++ "." ++ table ++ "'")
      (rows <- session_execute Q_columns [keyspace; table]
                 (on_columns d keyspace table) ;;
       ret (sort_columns (map to_column rows))).

  (** [str] of an options map whose keys and values need no escaping. *)
Definition str_item (kv : string * string) : string :=
    "'" ++ kv.1 ++ "': '" ++ kv.2 ++ "'".
Definition str_map (m : list (string * string)) : string :=
    "{" ++ String.concat ", " (map str_item m) ++ "}".

  (** [str(row.options) if row.options else ""] *)
Definition to_index (r : index_row) : index :=
    Index (row_index_name r) (row_index_kind r)
      (match row_options r with
       | Some (kv :: m) => str_map (kv :: m)
       | _ => ""
       end).

Definition get_table_indexes (d : driver) (keyspace table : string)
      : M (list index) :=
    lift (validate_name keyspace "keyspace name") ;;
    lift (validate_name table "table name") ;;
    connect d ;;
    logged ("Error getting indexes for table '" ++ keyspace ++ "." ++ table ++ "'")
      (rows <- session_execute Q_indexes [keyspace; table]
                 (on_indexes d keyspace table) ;;
       ret (map to_index rows)).

Definition get_materialized_views (d : driver) (keyspace : string)
      : M (list view) :=
    lift (validate_name keyspace "keyspace name") ;;
    connect d ;;
    logged ("Error getting materialized views in keyspace '" ++ keyspace ++ "'")
      (rows <- session_execute Q_views [keyspace] (on_views d keyspace) ;;
       ret (sort_by view_name String.ltb rows)).

  (** *** The keyspace query on the server

      [WHERE keyspace_name NOT IN ('system', 'system_schema', 'system_auth',
       'system_distributed', 'system_traces')], rows in the server's order. *)
Definition system_keyspaces : list string :=
    ["system"; "system_schema"; "system_auth"; "system_distributed";
     "system_traces"].

Definition keyspaces_where (keyspace_name : string) : bool :=
    negb (bool_decide (keyspace_name ∈ system_keyspaces)).

Definition keyspaces_select (catalog : list string) : list string :=
    List.filter keyspaces_where catalog.

  (** A cluster that accepts the connection, holds the keyspaces [catalog]
      and answers the column query with [cols]. *)
Definition serving (catalog : list string) (cols : list column_row) : driver :=
    {| on_new_cluster := Return tt;
       on_connect := Return tt;
       on_keyspaces := Return (keyspaces_select catalog);
       on_tables := fun _ => Return [];
       on_columns := fun _ _ => Return cols;
       on_indexes := fun _ _ => Return [];
       on_views := fun _ => Return [] |}.

End Scylla.

(** ** The relational entry point, [postgresql_mcp/__main__.py] *)
Module PostgresMain.
Import Postgres.

  (** [os.getenv(name, default)] *)
Definition getenv (environ : gmap string string) (name dflt : string) : string :=
    default dflt (environ !! name).

Definition get_db_config (environ : gmap string string) : gmap string string :=
    <["host" := getenv environ "POSTGRES_HOST" "localhost"]>
    (<["port" := getenv environ "POSTGRES_PORT" "5432"]>
    (<["user" := getenv environ "POSTGRES_USER" ""]>
    (<["password" := getenv environ "POSTGRES_PASSWORD" ""]>
    (<["database" := getenv environ "POSTGRES_DATABASE" ""]> ∅)))).

  (** [d[key]] *)
Definition getitem (d : gmap string string) (key : string) : result string :=
    match d !! key with
    | Some v => Return v
    | None => Raise (KeyError key)
    end.

Definition credentials_required : string :=
    "Database credentials (POSTGRES_USER, POSTGRES_PASSWORD, POSTGRES_DATABASE) are required".

  (** The part of [get_db] that runs on entering the [with] block: it either
      raises or yields a fresh manager. *)
Definition get_db_enter (environ : gmap string string) : result DatabaseManager :=
    let db_config := get_db_config environ in
    match getitem db_config "user" with
    | Raise e => Raise e
    | Return user =>
      if negb (str_truthy user) then Raise (ValueError credentials_required)
      else
      match getitem db_config "password" with
      | Raise e => Raise e
      | Return password =>
        if negb (str_truthy password) then Raise (ValueError credentials_required)
        else
        match getitem db_config "database" with
        | Raise e => Raise e
        | Return database =>
          if negb (str_truthy database) then Raise (ValueError credentials_required)
          else Return (init db_config)
        end
      end
    end.

  (** [with get_db() as db: return body(db)]: the body runs on the yielded
      manager and [db.close()] runs in the [finally] clause however the body
      ends.  The result is the outcome and every driver call made. *)
Definition with_get_db {A} (environ : gmap string string)
      (body : M (S:=DatabaseManager) (E:=event) A) : result A * list event :=
    match get_db_enter environ with
    | Raise e => (Raise e, [])
    | Return db =>
        let '(r, db1, t1) := body db in
        let '(rc, _, t2) := close db1 in
        (match rc with Raise e => Raise e | Return _ => r end, (t1 ++ t2)%list)
    end.

Definition list_schemas (environ : gmap string string) (d : driver) :=
    with_get_db environ (Postgres.list_schemas d).
Definition list_tables (environ : gmap string string) (d : driver) (schema : string) :=
    with_get_db environ (Postgres.list_tables d schema).
Definition describe_table (environ : gmap string string) (d : driver)
      (schema table : string) :=
    with_get_db environ (Postgres.describe_table d schema table).
Definition get_table_indexes (environ : gmap string string) (d : driver)
      (schema table : string) :=
    with_get_db environ (Postgres.get_table_indexes d schema table).
Definition get_table_constraints (environ : gmap string string) (d : driver)
      (schema table : string) :=
    with_get_db environ (Postgres.get_table_constraints d schema table).

End PostgresMain.

(** ** The wide-column entry point, [scylladb_mcp/__main__.py] *)
Module ScyllaMain.
Import Scylla.

  (** [os.getenv(name, default)] *)
Definition getenv (environ : gmap string string) (name dflt : string) : string :=
    default dflt (environ !! name).

  (** [host] and [port] are always set; [user] and [password] are added only
      when the variable holds a non-empty string. *)
Definition get_db_config (environ : gmap string string) : gmap string string :=
    let config :=
      <["host" := getenv environ "SCYLLA_HOST" "localhost"]>
      (<["port" := getenv environ "SCYLLA_PORT" "9042"]> ∅) in
    let user := getenv environ "SCYLLA_USER" "" in
    let password := getenv environ "SCYLLA_PASSWORD" "" in
    let config := if str_truthy user then <["user" := user]> config else config in
    let config :=
      if str_truthy password then <["password" := password]> config else config in
    config.

  (** The part of [get_db] that runs on entering the [with] block; this one
      has no check to fail. *)
Definition get_db_enter (environ : gmap string string) : DatabaseManager :=
    init (get_db_config environ).

  (** [with get_db() as db: return body(db)], with [db.close()] in the
      [finally] clause. *)
Definition with_get_db {A} (environ : gmap string string)
      (body : M (S:=DatabaseManager) (E:=event) A) : result A * list event :=
    let db := get_db_enter environ in
    let '(r, db1, t1) := body db in
    let '(rc, _, t2) := close db1 in
    (match rc with Raise e => Raise e | Return _ => r end, (t1 ++ t2)%list).

Definition list_keyspaces (environ : gmap string string) (d : driver) :=
    with_get_db environ (Scylla.list_keyspaces d).
Definition list_tables (environ : gmap string string) (d : driver) (keyspace : string) :=
    with_get_db environ (Scylla.list_tables d keyspace).
Definition describe_table (environ : gmap string string) (d : driver)
      (keyspace table : string) :=
    with_get_db environ (Scylla.describe_table d keyspace table).
Definition get_table_indexes (environ : gmap string string) (d : driver)
      (keyspace table : string) :=
    with_get_db environ (Scylla.get_table_indexes d keyspace table).
Definition get_materialized_views (environ : gmap string string) (d : driver)
      (keyspace : string) :=
    with_get_db environ (Scylla.get_materialized_views d keyspace).

End ScyllaMain.

(** * Vocabulary of the statements *)

(** Two neighbours of a sorted list: the later one is not smaller. *)
Definition not_after {A : Type} (ltb : A -> A -> bool) (a b : A) : Prop :=
  ltb b a = false.

(** The name ["public\n"]: a valid identifier followed by a line feed. *)
Definition public_newline : string := "public" ++ String Re.LF "".

(** Order of two columns as [describe_table] sorts them: by kind rank, then
    by position with a missing position counted as 999. *)
Definition key_le (a b : Scylla.column) : Prop :=
  Scylla.kind_rank (Scylla.kind a) < Scylla.kind_rank (Scylla.kind b)
  \/ (Scylla.kind_rank (Scylla.kind a) = Scylla.kind_rank (Scylla.kind b)
      /\ Scylla.position_key (Scylla.position a)
         <= Scylla.position_key (Scylla.position b)).








(** A schema name the listing is meant to keep: outside the two excluded
    names and without the prefix [pg_toast] or [pg_temp]. *)
Definition visible_schema (name : string) : bool :=
  negb (bool_decide (name ∈ ["information_schema"; "pg_catalog"]))
  && negb (String.prefix "pg_toast" name)
  && negb (String.prefix "pg_temp" name).

(** Every live connection the relational manager holds is read-only. *)
Definition live_readonly (m : Postgres.DatabaseManager) : Prop :=
  forall c, Postgres.conn m = Some c -> Postgres.closed c = 0 ->
            Postgres.readonly c = true.

(** A name the validator rejects, and the exception it raises for it. *)
Definition invalid (name : string) : Prop := Re.match_name name = false.
Definition invalid_name (type_desc name : string) : exn :=
  ValueError ("Invalid " ++ type_desc ++ ": " ++ name).



(** A call that fails in execution: the exception [e] reaches the caller and
    the last thing done before is to log [what] followed by the error. *)
Definition pg_logged_and_raised {A : Type}
    (r : result A * Postgres.DatabaseManager * list Postgres.event)
    (what : string) (e : exn) : Prop :=
  outcome r = Raise e
  /\ exists t, trace r = (t ++ [Postgres.LogError (what ++ ": " ++ exn_str e)])%list.
Definition sc_logged_and_raised {A : Type}
    (r : result A * Scylla.DatabaseManager * list Scylla.event)
    (what : string) (e : exn) : Prop :=
  outcome r = Raise e
  /\ exists t, trace r = (t ++ [Scylla.LogError (what ++ ": " ++ exn_str e)])%list.

(** Servers on which every catalog query fails with [e]. *)
Definition pg_queries_fail (d : Postgres.driver) (e : exn) : Prop :=
  Postgres.on_schemata d = Raise e
  /\ (forall s, Postgres.on_tables d s = Raise e)
  /\ (forall s t, Postgres.on_columns d s t = Raise e)
  /\ (forall s t, Postgres.on_indexes d s t = Raise e)
  /\ (forall s t, Postgres.on_constraints d s t = Raise e).
Definition sc_queries_fail (d : Scylla.driver) (e : exn) : Prop :=
  Scylla.on_keyspaces d = Raise e
  /\ (forall k, Scylla.on_tables d k = Raise e)
  /\ (forall k t, Scylla.on_columns d k t = Raise e)
  /\ (forall k t, Scylla.on_indexes d k t = Raise e)
  /\ (forall k, Scylla.on_views d k = Raise e).

Definition pg_failing (e : exn) : Postgres.driver :=
  {| Postgres.on_connect := Return tt;
     Postgres.on_set_session := Return tt;
     Postgres.on_schemata := Raise e;
     Postgres.on_tables := fun _ => Raise e;
     Postgres.on_columns := fun _ _ => Raise e;
     Postgres.on_indexes := fun _ _ => Raise e;
     Postgres.on_constraints := fun _ _ => Raise e |}.
Definition sc_failing (e : exn) : Scylla.driver :=
  {| Scylla.on_new_cluster := Return tt;
     Scylla.on_connect := Return tt;
     Scylla.on_keyspaces := Raise e;
     Scylla.on_tables := fun _ => Raise e;
     Scylla.on_columns := fun _ _ => Raise e;
     Scylla.on_indexes := fun _ _ => Raise e;
     Scylla.on_views := fun _ => Raise e |}.

(** A server that accepts the connection and then refuses
    [set_session(readonly=True)]. *)
Definition pg_refusing_readonly : Postgres.driver :=
  {| Postgres.on_connect := Return tt;
     Postgres.on_set_session := Raise (DriverError "set_session failed");
     Postgres.on_schemata := Return ["public"];
     Postgres.on_tables := fun _ => Return [];
     Postgres.on_columns := fun _ _ => Return [];
     Postgres.on_indexes := fun _ _ => Return [];
     Postgres.on_constraints := fun _ _ => Return [] |}.

(** Ascending order of strings, as [<] on [str] compares them. *)
Definition str_le (a b : string) : Prop := String.ltb b a = false.

(** ** Vocabulary of the further properties *)

(** What the validator's pattern lets through: a non-empty run of class
    characters, alone or followed by one line feed. *)
Definition passes_pattern (name : string) : Prop :=
  exists w, w <> "" /\ Re.all_class w = true
            /\ (name = w \/ name = w ++ String Re.LF "").

(** Every query of the record was sent on an open, read-only connection. *)
Definition pg_exec_readonly (t : list Postgres.event) : Prop :=
  forall c q params, In (Postgres.Execute c q params) t ->
    Postgres.closed c = 0 /\ Postgres.readonly c = true.

(** Nothing was logged. *)
Definition pg_no_log (t : list Postgres.event) : Prop :=
  forall msg, ~ In (Postgres.LogError msg) t.

(** The record holds a call to [psycopg2.connect], to [Cluster(...)]. *)
Definition pg_connect_called (t : list Postgres.event) : Prop :=
  exists cfg, In (Postgres.Connect cfg) t.
Definition sc_cluster_built (t : list Scylla.event) : Prop :=
  exists cp port auth, In (Scylla.NewCluster cp port auth) t.

(** A tool call that closes what it opens: when [psycopg2.connect] was called
    and succeeded, the last driver call is [conn.close()] and it is the only
    one; otherwise [conn.close()] is never called. *)
Definition pg_closes_what_it_opens (d : Postgres.driver)
    (t : list Postgres.event) : Prop :=
  (pg_connect_called t -> Postgres.on_connect d = Return tt ->
   exists t', t = (t' ++ [Postgres.Close])%list /\ ~ In Postgres.Close t')
  /\ (~ (pg_connect_called t /\ Postgres.on_connect d = Return tt) ->
      ~ In Postgres.Close t).

(** The same for the cluster: when [Cluster(...)] was called and returned,
    the last driver call is [cluster.shutdown()]; [session.shutdown()] is
    called just before it exactly when [cluster.connect()] had returned a
    session; when no cluster was built nothing is shut down. *)
Definition sc_shuts_down_what_it_builds (d : Scylla.driver)
    (t : list Scylla.event) : Prop :=
  (sc_cluster_built t -> Scylla.on_new_cluster d = Return tt ->
   exists t',
     ~ In Scylla.ClusterShutdown t' /\ ~ In Scylla.SessionShutdown t'
     /\ ((Scylla.on_connect d = Return tt
          /\ t = (t' ++ [Scylla.SessionShutdown; Scylla.ClusterShutdown])%list)
         \/ (Scylla.on_connect d <> Return tt
             /\ t = (t' ++ [Scylla.ClusterShutdown])%list)))
  /\ (~ (sc_cluster_built t /\ Scylla.on_new_cluster d = Return tt) ->
      ~ In Scylla.ClusterShutdown t /\ ~ In Scylla.SessionShutdown t).

(** The three credentials are set to non-empty strings. *)
Definition credentials_present (environ : gmap string string) : bool :=
  opt_truthy (environ !! "POSTGRES_USER")
  && opt_truthy (environ !! "POSTGRES_PASSWORD")
  && opt_truthy (environ !! "POSTGRES_DATABASE").


(** The string holds an ASCII letter. *)
Definition is_letter (c : ascii) : bool :=
  Re.in_range "a" "z" c || Re.in_range "A" "Z" c.
Fixpoint has_letter (s : string) : bool :=
  match s with
  | EmptyString => false
  | String c rest => is_letter c || has_letter rest
  end.

(** The port setting the wide-column manager reads. *)
Definition sc_port_setting (m : Scylla.DatabaseManager) : string :=
  default "9042" (Scylla.db_config m !! "port").

(** The call [Cluster(contact_points=..., port=..., auth_provider=...)] the
    wide-column manager makes for its configuration when the port reads as
    [port]. *)
Definition sc_new_cluster (cfg : gmap string string) (port : Z) : Scylla.event :=
  Scylla.NewCluster [default "localhost" (cfg !! "host")] port
    (match cfg !! "user", cfg !! "password" with
     | Some u, Some p => if str_truthy u && str_truthy p then Some (u, p) else None
     | _, _ => None
     end).

(** Ascending order of views by name, and the views of one name. *)
Definition view_le (a b : Scylla.view) : Prop :=
  str_le (Scylla.view_name a) (Scylla.view_name b).
Definition named (n : string) (v : Scylla.view) : bool :=
  String.eqb (Scylla.view_name v) n.

(** An index dictionary built from a row: name and kind as in the row, and
    the empty string for options that are missing or empty. *)
Definition index_of_row (r : Scylla.index_row) (i : Scylla.index) : Prop :=
  Scylla.index_name i = Scylla.row_index_name r
  /\ Scylla.index_kind i = Scylla.row_index_kind r
  /\ (Scylla.row_options r = None \/ Scylla.row_options r = Some [] ->
      Scylla.options i = "").

(** Servers used as examples: they accept the connection and answer every
    query with a fixed list. *)
Definition pg_example : Postgres.driver :=
  {| Postgres.on_connect := Return tt;
     Postgres.on_set_session := Return tt;
     Postgres.on_schemata := Return ["public"; "sales"];
     Postgres.on_tables := fun _ => Return ["orders"; "users"];
     Postgres.on_columns := fun _ _ =>
       Return [Postgres.ColumnRow "id" "integer" "NO" None;
               Postgres.ColumnRow "name" "text" "YES" (Some "'x'::text")];
     Postgres.on_indexes := fun _ _ =>
       Return [Postgres.IndexRow "users_pkey"
                 "CREATE UNIQUE INDEX users_pkey ON public.users USING btree (id)"];
     Postgres.on_constraints := fun _ _ =>
       Return [Postgres.ConstraintRow "users_pkey" "PRIMARY KEY (id)"] |}.
Definition sc_example : Scylla.driver :=
  {| Scylla.on_new_cluster := Return tt;
     Scylla.on_connect := Return tt;
     Scylla.on_keyspaces := Return ["shop"; "app"];
     Scylla.on_tables := fun _ => Return ["users"; "orders"; "carts"];
     Scylla.on_columns := fun _ _ =>
       Return [Scylla.ColumnRow "name" "text" "regular" None;
               Scylla.ColumnRow "id" "uuid" "partition_key" (Some 0)];
     Scylla.on_indexes := fun _ _ =>
       Return [Scylla.IndexRow "by_name" "COMPOSITES" (Some [("target", "name")]);
               Scylla.IndexRow "by_age" "COMPOSITES" None];
     Scylla.on_views := fun _ =>
       Return [Scylla.View "users_by_name" "users";
               Scylla.View "orders_by_day" "orders"] |}.

(** Servers that refuse the connection with [e]. *)
Definition pg_unreachable (e : exn) : Postgres.driver :=
  {| Postgres.on_connect := Raise e;
     Postgres.on_set_session := Return tt;
     Postgres.on_schemata := Return [];
     Postgres.on_tables := fun _ => Return [];
     Postgres.on_columns := fun _ _ => Return [];
     Postgres.on_indexes := fun _ _ => Return [];
     Postgres.on_constraints := fun _ _ => Return [] |}.
Definition sc_unreachable (e : exn) : Scylla.driver :=
  {| Scylla.on_new_cluster := Return tt;
     Scylla.on_connect := Raise e;
     Scylla.on_keyspaces := Return [];
     Scylla.on_tables := fun _ => Return [];
     Scylla.on_columns := fun _ _ => Return [];
     Scylla.on_indexes := fun _ _ => Return [];
     Scylla.on_views := fun _ => Return [] |}.

(** An environment with the three credentials, and managers that hold a
    live connection. *)
Definition pg_environ : gmap string string :=
  <["POSTGRES_USER" := "reader"]>
  (<["POSTGRES_PASSWORD" := "secret"]>
  (<["POSTGRES_DATABASE" := "shop"]> ∅)).
Definition pg_connected : Postgres.DatabaseManager :=
  Postgres.Manager ∅ (Some (Postgres.Connection 0 true)).
Definition sc_connected : Scylla.DatabaseManager :=
  Scylla.Manager ∅ (Some (Scylla.Cluster false)) (Some (Scylla.Session false)).

(** The example cluster answering with the same rows in another order. *)
Definition sc_example_reordered : Scylla.driver :=
  {| Scylla.on_new_cluster := Return tt;
     Scylla.on_connect := Return tt;
     Scylla.on_keyspaces := Return ["app"; "shop"];
     Scylla.on_tables := fun _ => Return ["carts"; "users"; "orders"];
     Scylla.on_columns := fun _ _ =>
       Return [Scylla.ColumnRow "id" "uuid" "partition_key" (Some 0);
               Scylla.ColumnRow "name" "text" "regular" None];
     Scylla.on_indexes := fun _ _ => Return [];
     Scylla.on_views := fun _ =>
       Return [Scylla.View "orders_by_day" "orders";
               Scylla.View "users_by_name" "users"] |}.

(** What the [except psycopg2.Error] handler of [connect] adds to the record. *)
Definition pg_connect_log (e : exn) : list Postgres.event :=
  if Postgres.is_psycopg2_error e
  then [Postgres.LogError ("Error connecting to database: " ++ exn_str e)]
  else [].
Definition pg_query_log (what : string) (e : exn) : list Postgres.event :=
  if Postgres.is_psycopg2_error e
  then [Postgres.LogError (what ++ ": " ++ exn_str e)]
  else [].


(** An operation that stops where the step [c] failed: it raises the same
    exception [e], with the fields and the record of calls [c] left. *)
Definition stops_at {A B S E : Type} (r : result A * S * list E)
    (c : result B * S * list E) (e : exn) : Prop :=
  outcome r = Raise e /\ fields r = fields c /\ trace r = trace c.

(** An operation that raises [e] without a log line. *)
Definition pg_raised_unlogged {A : Type}
    (r : result A * Postgres.DatabaseManager * list Postgres.event)
    (e : exn) : Prop :=
  outcome r = Raise e /\ pg_no_log (trace r).

(** An operation that returns [rows] after one query [q] with the bound
    parameters [params], sent on the connection [c] that [connect] left. *)
Definition pg_returns_rows {A B : Type}
    (r : result A * Postgres.DatabaseManager * list Postgres.event)
    (connected : result B * Postgres.DatabaseManager * list Postgres.event)
    (rows : A) (c : Postgres.connection) (q : Postgres.query)
    (params : list string) : Prop :=
  r = (Return rows, fields connected,
       (trace connected ++ [Postgres.Execute c q params])%list).

(** What the [except Exception] handler of the wide-column [connect] adds to
    the record. *)
Definition sc_connect_log (e : exn) : Scylla.event :=
  Scylla.LogError ("Error connecting to ScyllaDB: " ++ exn_str e).

(** The record holds no query, no call to the driver at all. *)
Definition sc_no_query (t : list Scylla.event) : Prop :=
  forall q params, ~ In (Scylla.Execute q params) t.

(** An example configuration with a port that is not a number. *)
Definition sc_bad_port_manager : Scylla.DatabaseManager :=
  Scylla.init (<["port" := "9o42"]> ∅).

(** The keyword arguments [psycopg2.connect] gets from the environment:
    host and port with their defaults, the three credentials, nothing else. *)
Definition pg_connect_kwargs (environ cfg : gmap string string) : Prop :=
  cfg !! "host" = Some (default "localhost" (environ !! "POSTGRES_HOST"))
  /\ cfg !! "port" = Some (default "5432" (environ !! "POSTGRES_PORT"))
  /\ cfg !! "user" = Some (default "" (environ !! "POSTGRES_USER"))
  /\ cfg !! "password" = Some (default "" (environ !! "POSTGRES_PASSWORD"))
  /\ cfg !! "database" = Some (default "" (environ !! "POSTGRES_DATABASE"))
  /\ forall key, ~ In key ["host"; "port"; "user"; "password"; "database"] ->
                 cfg !! key = None.

(** The driver calls of one successful tool call of the relational backend:
    connect, mark the session read-only, one query on it, close. *)
Definition pg_session_record (cfg : gmap string string) (q : Postgres.query)
    (params : list string) : list Postgres.event :=
  [Postgres.Connect cfg; Postgres.SetSession;
   Postgres.Execute (Postgres.Connection 0 true) q params; Postgres.Close].

(** How a call on a fresh relational manager can end, as far as the
    connection goes: [conn.close()] was not called, and either the manager
    is still fresh, or [psycopg2.connect] has returned and the manager holds
    the connection, open. *)
Definition pg_fresh_run {A : Type} (d : Postgres.driver)
    (cfg : gmap string string)
    (r : result A * Postgres.DatabaseManager * list Postgres.event) : Prop :=
  ~ In Postgres.Close (trace r)
  /\ pg_exec_readonly (trace r)
  /\ ((fields r = Postgres.init cfg
       /\ ~ (pg_connect_called (trace r) /\ Postgres.on_connect d = Return tt))
      \/ (Postgres.on_connect d = Return tt
          /\ pg_connect_called (trace r)
          /\ exists ro, fields r = Postgres.Manager cfg
                                     (Some (Postgres.Connection 0 ro)))).


(** How a call on a fresh wide-column manager can end, as far as cluster and
    session go: nothing was shut down, and either the manager is still
    fresh, or it holds the cluster alone, or the cluster and a live
    session. *)
Definition sc_fresh_run {A : Type} (d : Scylla.driver)
    (cfg : gmap string string)
    (r : result A * Scylla.DatabaseManager * list Scylla.event) : Prop :=
  ~ In Scylla.ClusterShutdown (trace r)
  /\ ~ In Scylla.SessionShutdown (trace r)
  /\ ((fields r = Scylla.init cfg
       /\ ~ (sc_cluster_built (trace r) /\ Scylla.on_new_cluster d = Return tt))
      \/ (Scylla.on_new_cluster d = Return tt
          /\ sc_cluster_built (trace r)
          /\ Scylla.on_connect d <> Return tt
          /\ fields r = Scylla.Manager cfg (Some (Scylla.Cluster false)) None)
      \/ (Scylla.on_new_cluster d = Return tt
          /\ sc_cluster_built (trace r)
          /\ Scylla.on_connect d = Return tt
          /\ fields r = Scylla.Manager cfg (Some (Scylla.Cluster false))
                          (Some (Scylla.Session false)))).


(** * Properties *)

(** ** The identifier validator *)
Section Validator.

Lemma append_cons (c : ascii) (s t : string) :
    String c s ++ t = String c (s ++ t).
  Proof. reflexivity. Qed.

Lemma append_nil (t : string) : "" ++ t = t.
  Proof. reflexivity. Qed.

  (** What the pattern accepts: a non-empty run of class characters,
      optionally followed by one final line feed. *)
Lemma class_plus_dollar_spec (s : string) :
    Re.class_plus_dollar s = true <->
    exists w, w <> "" /\ Re.all_class w = true /\
              (s = w \/ s = w ++ String Re.LF "").
  Proof.
    induction s as [|c s IH]; simpl.
    - split; [done|]. intros (w & Hw & _ & [Heq|Heq]); [by subst|].
      destruct w; rewrite ?append_cons, ?append_nil in Heq; discriminate.
    - rewrite andb_true_iff, orb_true_iff, IH. split.
      + intros [Hc [(w & Hw & Hall & Hs) | Hd]].
        * exists (String c w). split; [done|]. simpl. rewrite Hc, Hall.
          split; [done|]. destruct Hs as [Hs|Hs]; subst s; auto.
        * exists (String c ""). split; [done|]. simpl. rewrite Hc.
          split; [done|]. destruct s as [|d [|]]; simpl in Hd; try done; auto.
          apply Ascii.eqb_eq in Hd. subst d. by right.
      + intros (w & Hw & Hall & Hs).
        destruct w as [|c' w]; [done|]. simpl in Hall.
        apply andb_true_iff in Hall as [Hc' Hall].
        assert (c' = c) as Hcc.
        { destruct Hs as [Hs|Hs]; rewrite ?append_cons in Hs; congruence. }
        subst c'. split; [done|].
        destruct w as [|c2 w].
        * right. destruct Hs as [Hs|Hs];
            rewrite ?append_cons, ?append_nil in Hs; injection Hs as Hs;
            subst s; done.
        * left. exists (String c2 w). split; [done|]. split; [done|].
          destruct Hs as [Hs|Hs]; rewrite ?append_cons in Hs;
            injection Hs as Hs; subst s; auto.
  Qed.

End Validator.

Section ValidatorFacts.

Lemma validate_name_ok_iff (name type_desc : string) :
    validate_name name type_desc = Return tt <->
    exists w, w <> "" /\ Re.all_class w = true /\
              (name = w \/ name = w ++ String Re.LF "").
  Proof.
    rewrite <- class_plus_dollar_spec. unfold validate_name, Re.match_name.
    destruct (Re.class_plus_dollar name); simpl; split; congruence.
  Qed.

  (** A non-empty name made of class characters is accepted. *)
Lemma validate_name_accepts (name type_desc : string) :
    name <> "" -> Re.all_class name = true ->
    validate_name name type_desc = Return tt.
  Proof.
    intros Hne Hall. apply validate_name_ok_iff. exists name. auto.
  Qed.

  (** The validator either returns or raises the [ValueError] whose message
      is ["Invalid <type_desc>: <name>"]. *)
Lemma validate_name_cases (name type_desc : string) :
    validate_name name type_desc = Return tt
    \/ validate_name name type_desc
       = Raise (ValueError ("Invalid " ++ type_desc ++ ": " ++ name)).
  Proof.
    unfold validate_name. destruct (Re.match_name name); simpl; auto.
  Qed.

  (** The empty string is rejected. *)
Lemma validate_name_empty (type_desc : string) :
    validate_name "" type_desc
    = Raise (ValueError ("Invalid " ++ type_desc ++ ": " ++ "")).
  Proof. reflexivity. Qed.

End ValidatorFacts.

(** C1.  The validator does not reject every string that holds a character
    outside [[A-Za-z0-9_]]: the name ["public\n"] ends in a line feed, which
    is not in the class, and [validate_name] returns on it without raising,
    because [$] also matches just before a final line feed. *)
Theorem validate_name_trailing_newline :
  Re.all_class public_newline = false
  /\ validate_name public_newline "schema name" = Return tt.
Proof. split; reflexivity. Qed.

(** ** Stable sorting *)
Section StableSortFacts.
Context {A : Type} (ltb : A -> A -> bool).

Lemma insert_sorted_perm (x : A) (l : list A) :
    Permutation (insert_sorted ltb x l) (x :: l).
  Proof.
    induction l as [|y l IH]; simpl; [done|].
    destruct (ltb y x); [|done].
    rewrite IH. apply perm_swap.
  Qed.

Lemma stable_sort_perm (l : list A) : Permutation (stable_sort ltb l) l.
  Proof.
    induction l as [|x l IH]; simpl; [done|].
    rewrite insert_sorted_perm. by constructor.
  Qed.

Hypothesis ltb_asym : forall a b, ltb a b = true -> ltb b a = false.

Lemma insert_sorted_hdrel (a x : A) (l : list A) :
    not_after ltb a x -> HdRel (not_after ltb) a l ->
    HdRel (not_after ltb) a (insert_sorted ltb x l).
  Proof.
    unfold not_after.
    intros Hax Hl. destruct l as [|y l]; simpl; [by constructor|].
    destruct (ltb y x); constructor; [by inversion Hl | done].
  Qed.

Lemma insert_sorted_sorted (x : A) (l : list A) :
    Sorted (not_after ltb) l -> Sorted (not_after ltb) (insert_sorted ltb x l).
  Proof.
    induction l as [|y l IH]; intros Hs; simpl.
    - repeat constructor.
    - inversion Hs as [|? ? Hl Hhd]; subst.
      destruct (ltb y x) eqn:Hyx.
      + constructor; [by apply IH|].
        apply insert_sorted_hdrel; [|done]. by apply ltb_asym.
      + constructor; [done|]. by constructor.
  Qed.

Lemma stable_sort_sorted (l : list A) : Sorted (not_after ltb) (stable_sort ltb l).
  Proof.
    induction l as [|x l IH]; simpl; [constructor|].
    by apply insert_sorted_sorted.
  Qed.

  (** Stability: elements that are pairwise not smaller than one another
      come out in their input order. *)
Lemma insert_sorted_filter (P : A -> bool) (x : A) (l : list A) :
    (forall a b, P a = true -> P b = true -> ltb a b = false) ->
    List.filter P (insert_sorted ltb x l) = List.filter P (x :: l).
  Proof.
    intros HP. induction l as [|y l IH]; simpl; [done|].
    destruct (ltb y x) eqn:Hyx; [|done].
    simpl. rewrite IH. simpl.
    destruct (P y) eqn:Hy, (P x) eqn:Hx; try done.
    rewrite (HP y x Hy Hx) in Hyx. discriminate.
  Qed.

Lemma stable_sort_filter (P : A -> bool) (l : list A) :
    (forall a b, P a = true -> P b = true -> ltb a b = false) ->
    List.filter P (stable_sort ltb l) = List.filter P l.
  Proof.
    intros HP. induction l as [|x l IH]; simpl; [done|].
    rewrite insert_sorted_filter by done. simpl. by rewrite IH.
  Qed.

End StableSortFacts.

(** ** The wide-column backend *)
Section ScyllaFacts.
Import Scylla.

  (** After [connect] returns normally the manager holds a live session. *)
Lemma sc_connect_live (d : driver) (m : DatabaseManager) :
    outcome (connect d m) = Return tt ->
    needs_connect (fields (connect d m)) = false.
  Proof.
    unfold connect, bind, get. simpl.
    destruct (needs_connect m) eqn:Hn; [|by simpl].
    unfold try_except, bind, lift, emit, set_cluster, set_session, get, put.
    simpl.
    destruct (py_int _); simpl; [|discriminate].
    destruct (on_new_cluster d); simpl; [|discriminate].
    destruct (on_connect d); simpl; [|discriminate].
    done.
  Qed.



Lemma key_le_not_after (a b : column) :
  not_after (fun x y => pair_ltb (sort_key x) (sort_key y)) a b <-> key_le a b.
Proof.
  unfold not_after, key_le, pair_ltb, sort_key. simpl.
  rewrite orb_false_iff, andb_false_iff.
  rewrite !Z.ltb_ge, Z.eqb_neq. lia.
Qed.











End ScyllaFacts.








(** ** Validation comes first *)

Lemma validate_name_rejects (name type_desc : string) :
  invalid name -> validate_name name type_desc = Raise (invalid_name type_desc name).
Proof. unfold invalid, validate_name. by intros ->. Qed.

Lemma validate_name_valid (name type_desc : string) :
  Re.match_name name = true -> validate_name name type_desc = Return tt.
Proof. unfold validate_name. by intros ->. Qed.






(** ** Execution failures *)

(** After [connect] returns normally the relational manager holds an open
    connection. *)
Lemma pg_connect_live (d : Postgres.driver) (m : Postgres.DatabaseManager) :
  outcome (Postgres.connect d m) = Return tt ->
  Postgres.needs_connect (fields (Postgres.connect d m)) = false.
Proof.
  unfold Postgres.connect, bind, get. simpl.
  destruct (Postgres.needs_connect m) eqn:Hn; [|by simpl].
  unfold try_except, bind, lift, emit, Postgres.set_conn, get, put. simpl.
  destruct (Postgres.on_connect d) as [[]|e]; simpl.
  - destruct (Postgres.on_set_session d) as [[]|e]; simpl; [done|].
    destruct e; simpl; discriminate.
  - destruct e; simpl; discriminate.
Qed.

Ltac pg_fail op Hs Ht Hc Hlive Hans :=
  unfold pg_logged_and_raised, op, bind, lift;
  rewrite ?(validate_name_valid _ _ Hs), ?(validate_name_valid _ _ Ht);
  simpl;
  destruct (Postgres.connect _ _) as [[r m1] t1];
  unfold outcome, fields, trace in *; simpl in Hc, Hlive; subst r;
  unfold Postgres.logged, try_except, Postgres.cursor_execute, bind, get,
    lift, emit, raise;
  unfold Postgres.needs_connect in Hlive;
  destruct (Postgres.conn m1) as [c|]; [|discriminate];
  rewrite Hlive, Hans; simpl;
  split; [reflexivity|];
  match goal with
  | |- exists t, (?a ++ [?x; ?y])%list = _ =>
      exists (a ++ [x])%list; by rewrite <- app_assoc
  end.

Ltac sc_fail op Hs Ht Hc Hlive Hans :=
  unfold sc_logged_and_raised, op, bind, lift;
  rewrite ?(validate_name_valid _ _ Hs), ?(validate_name_valid _ _ Ht);
  simpl;
  destruct (Scylla.connect _ _) as [[r m1] t1];
  unfold outcome, fields, trace in *; simpl in Hc, Hlive; subst r;
  unfold Scylla.logged, try_except, Scylla.session_execute, bind, get,
    lift, emit, raise;
  unfold Scylla.needs_connect in Hlive;
  destruct (Scylla.the_session m1) as [c|]; [|discriminate];
  rewrite Hlive, Hans; simpl;
  split; [reflexivity|];
  match goal with
  | |- exists t, (?a ++ [?x; ?y])%list = _ =>
      exists (a ++ [x])%list; by rewrite <- app_assoc
  end.

(** C4.  On either backend, when the names are valid, the connection is
    there and the server fails the query with an error [e] of the driver,
    every operation logs a message that names the operation and its target
    followed by the error, and then raises [e] itself to the caller: the
    outcome is never a returned list. *)
Theorem execution_failure_is_logged_and_raised
    (pd : Postgres.driver) (pm : Postgres.DatabaseManager)
    (sd : Scylla.driver) (sm : Scylla.DatabaseManager)
    (space table msg : string) :
  Re.match_name space = true ->
  Re.match_name table = true ->
  outcome (Postgres.connect pd pm) = Return tt ->
  outcome (Scylla.connect sd sm) = Return tt ->
  pg_queries_fail pd (DriverError msg) ->
  sc_queries_fail sd (DriverError msg) ->
  pg_logged_and_raised (Postgres.list_schemas pd pm)
    "Error listing schemas" (DriverError msg)
  /\ pg_logged_and_raised (Postgres.list_tables pd space pm)
       ("Error listing tables in schema '" ++ space ++ "'") (DriverError msg)
  /\ pg_logged_and_raised (Postgres.describe_table pd space table pm)
       ("Error describing table '" ++ space ++ "." ++ table ++ "'")
       (DriverError msg)
  /\ pg_logged_and_raised (Postgres.get_table_indexes pd space table pm)
       ("Error getting indexes for table '" ++ space ++ "." ++ table ++ "'")
       (DriverError msg)
  /\ pg_logged_and_raised (Postgres.get_table_constraints pd space table pm)
       ("Error getting constraints for table '" ++ space ++ "." ++ table ++ "'")
       (DriverError msg)
  /\ sc_logged_and_raised (Scylla.list_keyspaces sd sm)
       "Error listing keyspaces" (DriverError msg)
  /\ sc_logged_and_raised (Scylla.list_tables sd space sm)
       ("Error listing tables in keyspace '" ++ space ++ "'") (DriverError msg)
  /\ sc_logged_and_raised (Scylla.describe_table sd space table sm)
       ("Error describing table '" ++ space ++ "." ++ table ++ "'")
       (DriverError msg)
  /\ sc_logged_and_raised (Scylla.get_table_indexes sd space table sm)
       ("Error getting indexes for table '" ++ space ++ "." ++ table ++ "'")
       (DriverError msg)
  /\ sc_logged_and_raised (Scylla.get_materialized_views sd space sm)
       ("Error getting materialized views in keyspace '" ++ space ++ "'")
       (DriverError msg).
Proof.
  intros Hs Ht Hpc Hsc (P1 & P2 & P3 & P4 & P5) (S1 & S2 & S3 & S4 & S5).
  pose proof (pg_connect_live pd pm Hpc) as Hpl.
  pose proof (sc_connect_live sd sm Hsc) as Hsl.
  split; [pg_fail Postgres.list_schemas Hs Ht Hpc Hpl P1|].
  split; [pg_fail Postgres.list_tables Hs Ht Hpc Hpl (P2 space)|].
  split; [pg_fail Postgres.describe_table Hs Ht Hpc Hpl (P3 space table)|].
  split; [pg_fail Postgres.get_table_indexes Hs Ht Hpc Hpl (P4 space table)|].
  split; [pg_fail Postgres.get_table_constraints Hs Ht Hpc Hpl (P5 space table)|].
  split; [sc_fail Scylla.list_keyspaces Hs Ht Hsc Hsl S1|].
  split; [sc_fail Scylla.list_tables Hs Ht Hsc Hsl (S2 space)|].
  split; [sc_fail Scylla.describe_table Hs Ht Hsc Hsl (S3 space table)|].
  split; [sc_fail Scylla.get_table_indexes Hs Ht Hsc Hsl (S4 space table)|].
  sc_fail Scylla.get_materialized_views Hs Ht Hsc Hsl (S5 space).
Qed.

Lemma execution_failure_witness :
  outcome (Postgres.list_tables (pg_failing (DriverError "boom")) "public"
             (Postgres.init ∅)) = Raise (DriverError "boom")
  /\ outcome (Scylla.list_keyspaces (sc_failing (DriverError "boom"))
                (Scylla.init ∅)) = Raise (DriverError "boom").
Proof.
  assert (pg_queries_fail (pg_failing (DriverError "boom")) (DriverError "boom"))
    as Hpf by (repeat split).
  assert (sc_queries_fail (sc_failing (DriverError "boom")) (DriverError "boom"))
    as Hsf by (repeat split).
  pose proof (execution_failure_is_logged_and_raised
                (pg_failing (DriverError "boom")) (Postgres.init ∅)
                (sc_failing (DriverError "boom")) (Scylla.init ∅)
                "public" "users" "boom"
                eq_refl eq_refl eq_refl eq_refl Hpf Hsf)
    as (_ & Hpg & _ & _ & _ & Hsc & _).
  split; [exact (proj1 Hpg)|exact (proj1 Hsc)].
Defined.

(** ** Closing *)

(** C5.  On either backend [close] returns without raising on a manager that
    was never connected, where it makes no driver call at all, and on a
    manager in any state; called again on the manager it leaves behind, it
    returns again and leaves the manager as it is.  On the relational backend
    the second call makes no driver call. *)
Theorem close_is_idempotent (cfg : gmap string string)
    (pm : Postgres.DatabaseManager) (sm : Scylla.DatabaseManager) :
  Postgres.close (Postgres.init cfg) = (Return tt, Postgres.init cfg, [])
  /\ Scylla.close (Scylla.init cfg) = (Return tt, Scylla.init cfg, [])
  /\ outcome (Postgres.close pm) = Return tt
  /\ Postgres.close (fields (Postgres.close pm))
     = (Return tt, fields (Postgres.close pm), [])
  /\ outcome (Scylla.close sm) = Return tt
  /\ outcome (Scylla.close (fields (Scylla.close sm))) = Return tt
  /\ fields (Scylla.close (fields (Scylla.close sm))) = fields (Scylla.close sm).
Proof.
  split; [reflexivity|]. split; [reflexivity|].
  assert (forall z ro,
    let r := Postgres.close (Postgres.Manager (Postgres.db_config pm)
                               (Some (Postgres.Connection z ro))) in
    outcome r = Return tt
    /\ Postgres.close (fields r) = (Return tt, fields r, [])) as Hpg.
  { intros z ro. unfold Postgres.close, bind, get, int_truthy. simpl.
    destruct (z =? 0) eqn:Hz; simpl; [done|]. by rewrite Hz. }
  split; [|split].
  - destruct pm as [c [[z ro]|]]; [apply Hpg|reflexivity].
  - destruct pm as [c [[z ro]|]]; [apply Hpg|reflexivity].
  - destruct sm as [c [[[|]]|] [[[|]]|]]; repeat split; reflexivity.
Qed.

(** ** The read-only session *)

(** When [set_session] cannot fail, [connect] keeps every live connection of
    the manager read-only. *)
Lemma pg_connect_keeps_readonly (d : Postgres.driver) (m : Postgres.DatabaseManager) :
  Postgres.on_set_session d = Return tt ->
  live_readonly m -> live_readonly (fields (Postgres.connect d m)).
Proof.
  intros Hset Hm. unfold Postgres.connect, bind, get. simpl.
  destruct (Postgres.needs_connect m) eqn:Hn; [|exact Hm].
  unfold try_except, bind, lift, emit, Postgres.set_conn, get, put. simpl.
  destruct (Postgres.on_connect d) as [[]|e]; simpl.
  - rewrite Hset. simpl. intros c [= <-] _. reflexivity.
  - destruct e; simpl; exact Hm.
Qed.

(** C6.  The invariant fails when [set_session] raises: [connect] has already
    stored the new connection, so the manager is left holding an open
    connection that is not read-only, and the next operation, finding an open
    connection, sends its query on it. *)
Theorem pg_session_left_writable :
  let after := Postgres.connect pg_refusing_readonly (Postgres.init ∅) in
  outcome after = Raise (DriverError "set_session failed")
  /\ Postgres.conn (fields after) = Some (Postgres.Connection 0 false)
  /\ ~ live_readonly (fields after)
  /\ Postgres.list_schemas pg_refusing_readonly (fields after)
     = (Return ["public"], fields after,
        [Postgres.Execute (Postgres.Connection 0 false) Postgres.Q_schemata []]).
Proof.
  split; [reflexivity|]. split; [reflexivity|]. split; [|reflexivity].
  intros H. specialize (H (Postgres.Connection 0 false) eq_refl eq_refl).
  discriminate.
Qed.

(** ** Listing schemas and keyspaces *)

Lemma sql_like_any (s : string) : Postgres.sql_like "%" s = true.
Proof.
  simpl. induction s as [|c s IH]; [reflexivity|].
  simpl. exact IH.
Qed.

(** [_] in the pattern stands for any character: every name made of "pg",
    one character and "temp" matches [pg_temp%%]. *)
Lemma sql_like_pg_temp (c : ascii) (rest : string) :
  Postgres.sql_like "pg_temp%%" (String "p" (String "g" (String c ("temp" ++ rest))))
  = true.
Proof.
  cbn -[Postgres.sql_like]. change ("temp" ++ rest) with
    (String "t" (String "e" (String "m" (String "p" rest)))).
  assert (forall s, Postgres.sql_like "%%" s = true) as Hany.
  { intros s. change (Postgres.sql_like "%%" s) with
      ((fix skip (s : string) : bool :=
          Postgres.sql_like "%" s
          || match s with EmptyString => false | String _ s' => skip s' end) s).
    destruct s; by rewrite sql_like_any. }
  cbn. exact (Hany rest).
Qed.

(** C7.  With the schemas public and pgxtemp in the catalog, [list_schemas]
    returns public alone, although pgxtemp is neither information_schema nor
    pg_catalog and has neither prefix pg_toast nor prefix pg_temp: the
    underscore of the LIKE pattern matches the x. *)
Theorem pg_list_schemas_hides_pgxtemp :
  visible_schema "pgxtemp" = true
  /\ outcome (Postgres.list_schemas (Postgres.serving ["public"; "pgxtemp"])
                (Postgres.init ∅)) = Return ["public"].
Proof. split; reflexivity. Qed.

Lemma string_ltb_asym (a b : string) : String.ltb a b = true -> String.ltb b a = false.
Proof.
  unfold String.ltb. rewrite (String.compare_antisym b a).
  destruct (String.compare a b); simpl; congruence.
Qed.

Lemma sorted_strings (l : list string) : Sorted str_le (stable_sort String.ltb l).
Proof. apply (stable_sort_sorted String.ltb string_ltb_asym). Qed.

Lemma In_stable_sort {A : Type} (ltb : A -> A -> bool) (x : A) (l : list A) :
  In x (stable_sort ltb l) <-> In x l.
Proof.
  split; apply Permutation_in; [|symmetry]; apply stable_sort_perm.
Qed.

(** What the relational listing returns in general: the names the WHERE
    clause keeps, in ascending order. *)
Lemma pg_list_schemas_run (d : Postgres.driver) (m : Postgres.DatabaseManager)
    (catalog : list string) :
  outcome (Postgres.connect d m) = Return tt ->
  Postgres.on_schemata d = Return (Postgres.schemata_select catalog) ->
  exists out,
    outcome (Postgres.list_schemas d m) = Return out
    /\ Sorted str_le out
    /\ (forall name, In name out <->
          In name catalog /\ Postgres.schemata_where name = true).
Proof.
  intros Hc Hans. pose proof (pg_connect_live d m Hc) as Hlive.
  exists (Postgres.schemata_select catalog). split; [|split].
  - unfold Postgres.list_schemas, bind.
    destruct (Postgres.connect d m) as [[r m1] t1].
    unfold outcome, fields in *. simpl in Hc, Hlive. subst r.
    unfold Postgres.logged, try_except, Postgres.cursor_execute, bind, get,
      lift, emit.
    unfold Postgres.needs_connect in Hlive.
    destruct (Postgres.conn m1) as [c|]; [|discriminate].
    rewrite Hlive, Hans. reflexivity.
  - apply sorted_strings.
  - intros name. unfold Postgres.schemata_select.
    rewrite In_stable_sort. apply filter_In.
Qed.



(** ** Missing configuration *)

Lemma get_db_config_lookup (environ : gmap string string) :
  PostgresMain.get_db_config environ !! "user"
    = Some (PostgresMain.getenv environ "POSTGRES_USER" "")
  /\ PostgresMain.get_db_config environ !! "password"
     = Some (PostgresMain.getenv environ "POSTGRES_PASSWORD" "")
  /\ PostgresMain.get_db_config environ !! "database"
     = Some (PostgresMain.getenv environ "POSTGRES_DATABASE" "").
Proof.
  unfold PostgresMain.get_db_config. repeat split; by simplify_map_eq.
Qed.

(** C9.  If POSTGRES_USER, POSTGRES_PASSWORD or POSTGRES_DATABASE is absent
    from the environment, entering [get_db] raises the [ValueError] that names
    the three required variables; no manager is built, and every tool call
    ends with that error without a single call to the driver. *)
Theorem get_db_requires_credentials (environ : gmap string string)
    (d : Postgres.driver) (schema table : string) :
  environ !! "POSTGRES_USER" = None
  \/ environ !! "POSTGRES_PASSWORD" = None
  \/ environ !! "POSTGRES_DATABASE" = None ->
  PostgresMain.get_db_enter environ
    = Raise (ValueError PostgresMain.credentials_required)
  /\ PostgresMain.list_schemas environ d
     = (Raise (ValueError PostgresMain.credentials_required), [])
  /\ PostgresMain.list_tables environ d schema
     = (Raise (ValueError PostgresMain.credentials_required), [])
  /\ PostgresMain.describe_table environ d schema table
     = (Raise (ValueError PostgresMain.credentials_required), [])
  /\ PostgresMain.get_table_indexes environ d schema table
     = (Raise (ValueError PostgresMain.credentials_required), [])
  /\ PostgresMain.get_table_constraints environ d schema table
     = (Raise (ValueError PostgresMain.credentials_required), []).
Proof.
  intros H.
  assert (PostgresMain.get_db_enter environ
          = Raise (ValueError PostgresMain.credentials_required)) as Henter.
  { unfold PostgresMain.get_db_enter, PostgresMain.getitem.
    destruct (get_db_config_lookup environ) as (-> & -> & ->).
    unfold PostgresMain.getenv.
    destruct H as [->|[->| ->]]; simpl.
    - reflexivity.
    - destruct (str_truthy _); reflexivity.
    - destruct (str_truthy _); [|reflexivity].
      destruct (str_truthy _); reflexivity. }
  split; [exact Henter|].
  unfold PostgresMain.list_schemas, PostgresMain.list_tables,
    PostgresMain.describe_table, PostgresMain.get_table_indexes,
    PostgresMain.get_table_constraints, PostgresMain.with_get_db.
  rewrite Henter. repeat split.
Qed.

Lemma get_db_requires_credentials_witness :
  PostgresMain.list_tables
    (<["POSTGRES_USER" := "reader"]> (<["POSTGRES_DATABASE" := "shop"]> ∅))
    (Postgres.serving ["public"]) "public"
  = (Raise (ValueError PostgresMain.credentials_required), []).
Proof.
  pose proof (get_db_requires_credentials
                (<["POSTGRES_USER" := "reader"]>
                   (<["POSTGRES_DATABASE" := "shop"]> ∅))
                (Postgres.serving ["public"]) "public" "users"
                (or_intror (or_introl eq_refl))) as (_ & _ & H & _).
  exact H.
Defined.
(** * Further properties of the code *)

(** ** The identifier validator, exactly *)

Lemma class_plus_dollar_forbidden (pre post : string) (c : ascii) :
  Re.name_class c = false ->
  Re.class_plus_dollar (pre ++ String c post) = true ->
  c = Re.LF /\ post = "".
Proof.
  intros Hc. induction pre as [|a pre IH]; rewrite ?append_nil, ?append_cons; simpl.
  - rewrite Hc. discriminate.
  - rewrite andb_true_iff, orb_true_iff. intros [_ [H|H]]; [by apply IH|].
    destruct pre as [|b pre]; rewrite ?append_nil, ?append_cons in H; simpl in H.
    + destruct post; [|discriminate]. apply Ascii.eqb_eq in H. done.
    + destruct (pre ++ String c post) eqn:E; [|discriminate].
      destruct pre; rewrite ?append_nil, ?append_cons in E; discriminate.
Qed.

(** X1.  [validate_name] returns exactly on the names made of a non-empty run
    of characters of [[A-Za-z0-9_]], alone or followed by one line feed; on
    every other name, the empty one included, it raises the [ValueError]
    whose message is "Invalid <type_desc>: <name>". *)
Theorem validate_name_accepts_exactly (name type_desc : string) :
  (passes_pattern name /\ validate_name name type_desc = Return tt)
  \/ (~ passes_pattern name
      /\ validate_name name type_desc = Raise (invalid_name type_desc name)).
Proof.
  unfold passes_pattern.
  pose proof (class_plus_dollar_spec name) as Hspec.
  unfold validate_name, invalid_name, Re.match_name.
  destruct (Re.class_plus_dollar name); simpl.
  - left. split; [by apply Hspec|done].
  - right. split; [|done]. intros H. apply Hspec in H. discriminate.
Qed.

(** X2.  A name that holds a character outside [[A-Za-z0-9_]] anywhere, other
    than a line feed in last position, is rejected with the [ValueError] that
    carries the label and the name: no quote, semicolon, space, dot or dash
    gets through, wherever it stands. *)
Theorem validate_name_rejects_forbidden_char (pre post : string) (c : ascii)
    (type_desc : string) :
  Re.name_class c = false ->
  c <> Re.LF \/ post <> "" ->
  validate_name (pre ++ String c post) type_desc
  = Raise (invalid_name type_desc (pre ++ String c post)).
Proof.
  intros Hc Hpos. unfold validate_name, invalid_name, Re.match_name.
  destruct (Re.class_plus_dollar (pre ++ String c post)) eqn:E; [|done].
  destruct (class_plus_dollar_forbidden pre post c Hc E) as [-> ->].
  destruct Hpos; done.
Qed.

Lemma validate_name_rejects_forbidden_char_witness :
  validate_name "users'; DROP TABLE users" "table name"
  = Raise (ValueError "Invalid table name: users'; DROP TABLE users").
Proof.
  apply (validate_name_rejects_forbidden_char "users" "; DROP TABLE users" "'"
           "table name").
  - reflexivity.
  - left. discriminate.
Defined.

(** ** Order of strings *)

Lemma str_le_cases (a b : string) :
  str_le a b <-> String.compare a b = Lt \/ a = b.
Proof.
  unfold str_le, String.ltb. rewrite (String.compare_antisym b a).
  destruct (String.compare a b) eqn:E; simpl.
  - apply String.compare_eq_iff in E. split; [by right|done].
  - split; [by left|done].
  - split; [discriminate|]. intros [H| ->]; [discriminate|].
    assert (String.compare b b = Eq) as Hbb
      by (by apply OrderedTypeEx.String_as_OT.cmp_eq).
    rewrite Hbb in E. discriminate.
Qed.

Lemma str_le_trans (a b c : string) : str_le a b -> str_le b c -> str_le a c.
Proof.
  rewrite !str_le_cases. intros [Hab| ->] [Hbc| ->]; auto.
  left. apply OrderedTypeEx.String_as_OT.cmp_lt.
  apply OrderedTypeEx.String_as_OT.cmp_lt in Hab, Hbc.
  eapply OrderedTypeEx.String_as_OT.lt_trans; eauto.
Qed.

Lemma str_le_antisym (a b : string) : str_le a b -> str_le b a -> a = b.
Proof.
  rewrite !str_le_cases. intros [Hab| ->] [Hba|Heq]; auto.
  rewrite (String.compare_antisym a b), Hba in Hab. discriminate.
Qed.

(** Two ascending arrangements of the same elements are equal when the order
    is transitive and antisymmetric. *)
Lemma sorted_perm_eq {A : Type} (R : A -> A -> Prop) (l l' : list A) :
  (forall a b, R a b -> R b a -> a = b) ->
  StronglySorted R l -> StronglySorted R l' -> Permutation l l' -> l = l'.
Proof.
  intros Hanti Hl. revert l'.
  induction Hl as [|a l Hl IH Ha]; intros l' Hl' Hp.
  - apply Permutation_nil in Hp. by subst.
  - destruct Hl' as [|b l' Hl' Hb].
    + symmetry in Hp. apply Permutation_nil in Hp. discriminate.
    + assert (a = b) as ->.
      { assert (In a (b :: l')) as Hin1
          by (eapply Permutation_in; [exact Hp|by left]).
        assert (In b (a :: l)) as Hin2
          by (eapply Permutation_in; [symmetry; exact Hp|by left]).
        rewrite List.Forall_forall in Ha, Hb.
        destruct Hin1 as [->|Hin1]; [done|].
        destruct Hin2 as [->|Hin2]; [done|].
        apply Hanti; auto. }
      f_equal. apply IH; [done|]. by apply Permutation_cons_inv in Hp.
Qed.

Lemma stable_sort_strings_perm_eq (l l' : list string) :
  Permutation l l' -> stable_sort String.ltb l = stable_sort String.ltb l'.
Proof.
  intros Hp. apply (sorted_perm_eq str_le).
  - apply str_le_antisym.
  - apply Sorted_StronglySorted; [intros a b c; apply str_le_trans|].
    apply sorted_strings.
  - apply Sorted_StronglySorted; [intros a b c; apply str_le_trans|].
    apply sorted_strings.
  - rewrite !stable_sort_perm. exact Hp.
Qed.

(** A list already in ascending order is left as it is. *)
Lemma stable_sort_of_sorted {A : Type} (ltb : A -> A -> bool) (l : list A) :
  Sorted (not_after ltb) l -> stable_sort ltb l = l.
Proof.
  induction 1 as [|a l Hl IH Hhd]; simpl; [done|].
  fold (stable_sort ltb l). rewrite IH.
  destruct Hhd as [|b l Hab]; simpl; [done|].
  unfold not_after in Hab. by rewrite Hab.
Qed.

(** ** Queries on a live wide-column session *)

(** A valid argument passes validation and the operation goes on. *)
Lemma validated_then {S E A : Type} (name label : string)
    (k : M (S:=S) (E:=E) A) (m : S) :
  Re.match_name name = true ->
  (lift (validate_name name label) ;; k) m = k m.
Proof.
  intros H. unfold bind, lift. rewrite (validate_name_valid _ _ H). simpl.
  by destruct (k m) as [[r m'] t].
Qed.

Lemma sc_query_returns {A B : Type} (what : string) (q : Scylla.query)
    (params : list string) (answer : result A) (f : A -> B)
    (m : Scylla.DatabaseManager) (rows : A) :
  Scylla.needs_connect m = false -> answer = Return rows ->
  Scylla.logged what (r <- Scylla.session_execute q params answer ;; ret (f r)) m
  = (Return (f rows), m, [Scylla.Execute q params]).
Proof.
  intros Hlive ->. unfold Scylla.needs_connect in Hlive.
  unfold Scylla.logged, try_except, Scylla.session_execute, bind, get, lift,
    emit, ret.
  destruct (Scylla.the_session m) as [s|]; [|discriminate].
  rewrite Hlive. reflexivity.
Qed.

(** An operation of the wide-column backend once its arguments are validated:
    [connect], then the query on the session [connect] leaves. *)
Lemma sc_operation_returns {A B : Type} (d : Scylla.driver)
    (m : Scylla.DatabaseManager) (what : string) (q : Scylla.query)
    (params : list string) (answer : result A) (f : A -> B) (rows : A) :
  outcome (Scylla.connect d m) = Return tt -> answer = Return rows ->
  (Scylla.connect d ;;
   Scylla.logged what (r <- Scylla.session_execute q params answer ;; ret (f r))) m
  = (Return (f rows), fields (Scylla.connect d m),
     (trace (Scylla.connect d m) ++ [Scylla.Execute q params])%list).
Proof.
  intros Hc Hans. pose proof (sc_connect_live d m Hc) as Hlive.
  unfold bind at 1.
  destruct (Scylla.connect d m) as [[r m1] t1].
  unfold outcome, fields, trace in *. simpl in *. subst r.
  by rewrite (sc_query_returns what q params answer f m1 rows Hlive Hans).
Qed.

(** X3.  With a valid keyspace name, a connection that opens and a table
    query that succeeds, the wide-column [list_tables] returns the server's
    table names, each as often as the server gave it, in ascending order. *)
Theorem sc_list_tables_sorted (d : Scylla.driver) (m : Scylla.DatabaseManager)
    (keyspace : string) (rows : list string) :
  Re.match_name keyspace = true ->
  outcome (Scylla.connect d m) = Return tt ->
  Scylla.on_tables d keyspace = Return rows ->
  exists out,
    outcome (Scylla.list_tables d keyspace m) = Return out
    /\ Sorted str_le out
    /\ Permutation out rows.
Proof.
  intros Hk Hc Hrows. exists (stable_sort String.ltb rows).
  split; [|split; [apply sorted_strings|apply stable_sort_perm]].
  unfold Scylla.list_tables. rewrite validated_then by done.
  by rewrite (sc_operation_returns d m _ _ _ _ (stable_sort String.ltb) rows Hc Hrows).
Qed.

Lemma sc_list_tables_sorted_witness :
  exists out,
    outcome (Scylla.list_tables sc_example "shop" (Scylla.init ∅)) = Return out
    /\ Sorted str_le out
    /\ Permutation out ["users"; "orders"; "carts"].
Proof.
  apply (sc_list_tables_sorted sc_example (Scylla.init ∅) "shop"
           ["users"; "orders"; "carts"]); reflexivity.
Defined.

(** X4.  The listings of the wide-column backend do not depend on the order
    in which the server returns the rows: two servers whose answers hold the
    same names, in whatever order, give the same list of keyspaces and the
    same list of tables. *)
Theorem sc_listing_order_independent (d d' : Scylla.driver)
    (m m' : Scylla.DatabaseManager) (keyspace : string)
    (spaces spaces' tables tables' : list string) :
  Re.match_name keyspace = true ->
  outcome (Scylla.connect d m) = Return tt ->
  outcome (Scylla.connect d' m') = Return tt ->
  Scylla.on_keyspaces d = Return spaces ->
  Scylla.on_keyspaces d' = Return spaces' ->
  Scylla.on_tables d keyspace = Return tables ->
  Scylla.on_tables d' keyspace = Return tables' ->
  Permutation spaces spaces' -> Permutation tables tables' ->
  outcome (Scylla.list_keyspaces d m) = outcome (Scylla.list_keyspaces d' m')
  /\ outcome (Scylla.list_tables d keyspace m)
     = outcome (Scylla.list_tables d' keyspace m').
Proof.
  intros Hk Hc Hc' Hs Hs' Ht Ht' Hps Hpt. split.
  - unfold Scylla.list_keyspaces.
    rewrite (sc_operation_returns d m _ _ _ _ (stable_sort String.ltb) _ Hc Hs).
    rewrite (sc_operation_returns d' m' _ _ _ _ (stable_sort String.ltb) _ Hc' Hs').
    unfold outcome. simpl. f_equal. by apply stable_sort_strings_perm_eq.
  - unfold Scylla.list_tables. rewrite !validated_then by done.
    rewrite (sc_operation_returns d m _ _ _ _ (stable_sort String.ltb) _ Hc Ht).
    rewrite (sc_operation_returns d' m' _ _ _ _ (stable_sort String.ltb) _ Hc' Ht').
    unfold outcome. simpl. f_equal. by apply stable_sort_strings_perm_eq.
Qed.

Lemma sc_listing_order_independent_witness :
  outcome (Scylla.list_keyspaces sc_example (Scylla.init ∅))
  = outcome (Scylla.list_keyspaces sc_example_reordered sc_connected)
  /\ outcome (Scylla.list_tables sc_example "shop" (Scylla.init ∅))
     = outcome (Scylla.list_tables sc_example_reordered "shop" sc_connected).
Proof.
  apply (sc_listing_order_independent sc_example sc_example_reordered
           (Scylla.init ∅) sc_connected "shop"
           ["shop"; "app"] ["app"; "shop"]
           ["users"; "orders"; "carts"] ["carts"; "users"; "orders"]);
    try reflexivity.
  - apply perm_swap.
  - apply Permutation_sym, (Permutation_cons_append ["users"; "orders"] "carts").
Defined.

(** X5.  With a valid keyspace name, a connection that opens and a view
    query that succeeds, [get_materialized_views] returns the server's rows
    rearranged in ascending order of view name, rows of one and the same
    name keeping the order the server gave them. *)
Theorem sc_get_materialized_views_sorted (d : Scylla.driver)
    (m : Scylla.DatabaseManager) (keyspace : string) (rows : list Scylla.view) :
  Re.match_name keyspace = true ->
  outcome (Scylla.connect d m) = Return tt ->
  Scylla.on_views d keyspace = Return rows ->
  exists out,
    outcome (Scylla.get_materialized_views d keyspace m) = Return out
    /\ Permutation out rows
    /\ Sorted view_le out
    /\ (forall n, List.filter (named n) out = List.filter (named n) rows).
Proof.
  intros Hk Hc Hrows.
  exists (sort_by Scylla.view_name String.ltb rows).
  split; [|split; [apply stable_sort_perm|split]].
  - unfold Scylla.get_materialized_views. rewrite validated_then by done.
    by rewrite (sc_operation_returns d m _ _ _ _
                  (sort_by Scylla.view_name String.ltb) rows Hc Hrows).
  - unfold sort_by.
    apply (stable_sort_sorted
             (fun a b => String.ltb (Scylla.view_name a) (Scylla.view_name b))).
    intros a b. apply string_ltb_asym.
  - intros n. apply stable_sort_filter. intros a b Ha Hb.
    unfold named in Ha, Hb. apply String.eqb_eq in Ha, Hb. rewrite Ha, Hb.
    destruct (String.ltb n n) eqn:E; [|done].
    by rewrite (string_ltb_asym n n E) in E.
Qed.

Lemma sc_get_materialized_views_sorted_witness :
  exists out,
    outcome (Scylla.get_materialized_views sc_example "shop" (Scylla.init ∅))
    = Return out
    /\ Permutation out [Scylla.View "users_by_name" "users";
                        Scylla.View "orders_by_day" "orders"]
    /\ Sorted view_le out
    /\ (forall n, List.filter (named n) out
                  = List.filter (named n)
                      [Scylla.View "users_by_name" "users";
                       Scylla.View "orders_by_day" "orders"]).
Proof.
  apply (sc_get_materialized_views_sorted sc_example (Scylla.init ∅) "shop");
    reflexivity.
Defined.

(** X6.  With valid names, a connection that opens and an index query that
    succeeds, the wide-column [get_table_indexes] returns one dictionary per
    row, in the server's order, with the row's name and kind; a row whose
    options are missing or empty gets the empty string for its options, so
    such a row never makes the call fail. *)
Theorem sc_get_table_indexes_rows (d : Scylla.driver)
    (m : Scylla.DatabaseManager) (keyspace table : string)
    (rows : list Scylla.index_row) :
  Re.match_name keyspace = true ->
  Re.match_name table = true ->
  outcome (Scylla.connect d m) = Return tt ->
  Scylla.on_indexes d keyspace table = Return rows ->
  exists out,
    outcome (Scylla.get_table_indexes d keyspace table m) = Return out
    /\ Forall2 index_of_row rows out.
Proof.
  intros Hk Ht Hc Hrows. exists (map Scylla.to_index rows). split.
  - unfold Scylla.get_table_indexes. rewrite !validated_then by done.
    by rewrite (sc_operation_returns d m _ _ _ _ (map Scylla.to_index) rows
                  Hc Hrows).
  - clear. induction rows as [|r rows IH]; simpl; constructor; [|exact IH].
    unfold index_of_row, Scylla.to_index. simpl.
    split; [done|]. split; [done|]. by intros [->| ->].
Qed.

Lemma sc_get_table_indexes_rows_witness :
  exists out,
    outcome (Scylla.get_table_indexes sc_example "shop" "users" (Scylla.init ∅))
    = Return out
    /\ Forall2 index_of_row
         [Scylla.IndexRow "by_name" "COMPOSITES" (Some [("target", "name")]);
          Scylla.IndexRow "by_age" "COMPOSITES" None] out.
Proof.
  apply (sc_get_table_indexes_rows sc_example (Scylla.init ∅) "shop" "users");
    reflexivity.
Defined.

(** X7.  Column rows that the server already returns in the order of
    [describe_table] (by kind group, then by position with a missing position
    counted as 999) come back as they are: the sort moves nothing, and so
    sorting the result of [describe_table] again changes nothing. *)
Theorem sc_describe_table_keeps_sorted_rows (d : Scylla.driver)
    (m : Scylla.DatabaseManager) (keyspace table : string)
    (rows : list Scylla.column_row) :
  Re.match_name keyspace = true ->
  Re.match_name table = true ->
  outcome (Scylla.connect d m) = Return tt ->
  Scylla.on_columns d keyspace table = Return rows ->
  Sorted key_le (map Scylla.to_column rows) ->
  outcome (Scylla.describe_table d keyspace table m)
  = Return (map Scylla.to_column rows)
  /\ Scylla.sort_columns (Scylla.sort_columns (map Scylla.to_column rows))
     = map Scylla.to_column rows.
Proof.
  intros Hk Ht Hc Hrows Hsorted.
  assert (Scylla.sort_columns (map Scylla.to_column rows)
          = map Scylla.to_column rows) as Hfix.
  { apply stable_sort_of_sorted.
    eapply Sorted_ind with (P := fun l => Sorted _ l);
      [constructor| |exact Hsorted].
    intros a l _ IH Hhd. constructor; [exact IH|].
    destruct Hhd; constructor. by apply key_le_not_after. }
  split; [|by rewrite !Hfix].
  unfold Scylla.describe_table. rewrite !validated_then by done.
  rewrite (sc_operation_returns d m _ _ _ _
             (fun rows => Scylla.sort_columns (map Scylla.to_column rows)) rows
             Hc Hrows).
  unfold outcome. simpl. by rewrite Hfix.
Qed.

Lemma sc_describe_table_keeps_sorted_rows_witness :
  outcome (Scylla.describe_table sc_example_reordered "shop" "users"
             (Scylla.init ∅))
  = Return [Scylla.Column "id" "uuid" "partition_key" (Some 0);
            Scylla.Column "name" "text" "regular" None]
  /\ Scylla.sort_columns
       (Scylla.sort_columns
          [Scylla.Column "id" "uuid" "partition_key" (Some 0);
           Scylla.Column "name" "text" "regular" None])
     = [Scylla.Column "id" "uuid" "partition_key" (Some 0);
        Scylla.Column "name" "text" "regular" None].
Proof.
  apply (sc_describe_table_keeps_sorted_rows sc_example_reordered
           (Scylla.init ∅) "shop" "users"
           [Scylla.ColumnRow "id" "uuid" "partition_key" (Some 0);
            Scylla.ColumnRow "name" "text" "regular" None]);
    try reflexivity.
  repeat constructor.
Defined.

(** ** The relational connection, case by case *)

Lemma pg_connect_cases (d : Postgres.driver) (m : Postgres.DatabaseManager) :
  (Postgres.needs_connect m = false
   /\ Postgres.connect d m = (Return tt, m, []))
  \/ (Postgres.needs_connect m = true
      /\ ((exists e, Postgres.on_connect d = Raise e
             /\ Postgres.connect d m
                = (Raise e, m,
                   (Postgres.Connect (Postgres.db_config m) :: pg_connect_log e)))
          \/ (Postgres.on_connect d = Return tt
              /\ exists e, Postgres.on_set_session d = Raise e
                 /\ Postgres.connect d m
                    = (Raise e,
                       Postgres.Manager (Postgres.db_config m)
                         (Some (Postgres.Connection 0 false)),
                       (Postgres.Connect (Postgres.db_config m)
                        :: Postgres.SetSession :: pg_connect_log e)))
          \/ (Postgres.on_connect d = Return tt
              /\ Postgres.on_set_session d = Return tt
              /\ Postgres.connect d m
                 = (Return tt,
                    Postgres.Manager (Postgres.db_config m)
                      (Some (Postgres.Connection 0 true)),
                    [Postgres.Connect (Postgres.db_config m);
                     Postgres.SetSession])))).
Proof.
  unfold Postgres.connect, bind, get. simpl.
  destruct (Postgres.needs_connect m) eqn:Hn; [right|left; done].
  split; [done|].
  unfold try_except, bind, lift, emit, raise, Postgres.set_conn, get, put,
    pg_connect_log.
  simpl.
  destruct (Postgres.on_connect d) as [[]|e]; simpl.
  - right. destruct (Postgres.on_set_session d) as [[]|e]; simpl.
    + right. done.
    + left. split; [done|]. exists e. split; [done|].
      by destruct (Postgres.is_psycopg2_error e).
  - left. exists e. split; [done|].
    by destruct (Postgres.is_psycopg2_error e).
Qed.

Lemma pg_query_cases {A : Type} (what : string) (q : Postgres.query)
    (params : list string) (answer : result A) (m : Postgres.DatabaseManager) :
  let r := Postgres.logged what (Postgres.cursor_execute q params answer) m in
  match Postgres.conn m with
  | None => r = (Raise (AttributeError "'NoneType' object has no attribute 'cursor'"), m, [])
  | Some c =>
      if int_truthy (Postgres.closed c)
      then r = (Raise (DriverError "connection already closed"), m,
                [Postgres.LogError (what ++ ": " ++ "connection already closed")])
      else match answer with
           | Return rows => r = (Return rows, m, [Postgres.Execute c q params])
           | Raise e => r = (Raise e, m,
                             (Postgres.Execute c q params :: pg_query_log what e))
           end
  end.
Proof.
  unfold Postgres.logged, try_except, Postgres.cursor_execute, bind, get, lift,
    emit, raise, pg_query_log.
  simpl. destruct (Postgres.conn m) as [c|]; simpl; [|done].
  destruct (int_truthy (Postgres.closed c)); simpl; [done|].
  destruct answer as [rows|e]; simpl; [done|].
  by destruct (Postgres.is_psycopg2_error e).
Qed.

(** A failed step ends the operation with the step's outcome. *)
Lemma bind_raise {S E A B : Type} (c : M (S:=S) (E:=E) A) (k : A -> M B)
    (m m1 : S) (e : exn) (t : list E) :
  c m = (Raise e, m1, t) -> bind c k m = (Raise e, m1, t).
Proof. intros H. unfold bind. by rewrite H. Qed.

Lemma bind_return {S E A B : Type} (c : M (S:=S) (E:=E) A) (k : A -> M B)
    (m m1 : S) (a : A) (t : list E) :
  c m = (Return a, m1, t) ->
  bind c k m = (outcome (k a m1), fields (k a m1), (t ++ trace (k a m1))%list).
Proof.
  intros H. unfold bind, outcome, fields, trace. rewrite H.
  by destruct (k a m1) as [[r m2] t2].
Qed.

(** An argument either passes validation or ends the operation at once. *)
Lemma validated_cases {S E A : Type} (name label : string)
    (k : M (S:=S) (E:=E) A) (m : S) :
  (Re.match_name name = true
   /\ (lift (validate_name name label) ;; k) m = k m)
  \/ (Re.match_name name = false
      /\ (lift (validate_name name label) ;; k) m
         = (Raise (invalid_name label name), m, [])).
Proof.
  destruct (Re.match_name name) eqn:H; [left|right]; split; try done.
  - by apply validated_then.
  - unfold bind, lift. by rewrite (validate_name_rejects name label H).
Qed.

(** X8.  On the relational backend [connect] is lazy: once it has returned
    normally, calling it again, whatever the server would answer now, makes
    no call to the driver and leaves the manager as it is, so successive
    operations on one manager share one connection. *)
Theorem pg_connect_reuses_connection (d d' : Postgres.driver)
    (m : Postgres.DatabaseManager) :
  outcome (Postgres.connect d m) = Return tt ->
  Postgres.connect d' (fields (Postgres.connect d m))
  = (Return tt, fields (Postgres.connect d m), []).
Proof.
  intros Hc. pose proof (pg_connect_live d m Hc) as Hlive.
  destruct (pg_connect_cases d' (fields (Postgres.connect d m)))
    as [[_ H]|[H _]]; [exact H|].
  rewrite Hlive in H. discriminate.
Qed.

Lemma pg_connect_reuses_connection_witness :
  Postgres.connect (pg_unreachable (DriverError "down"))
    (fields (Postgres.connect pg_example (Postgres.init ∅)))
  = (Return tt, fields (Postgres.connect pg_example (Postgres.init ∅)), []).
Proof.
  apply (pg_connect_reuses_connection pg_example
           (pg_unreachable (DriverError "down")) (Postgres.init ∅)).
  reflexivity.
Defined.

(** X9.  After [close], in whatever state the manager was, the relational
    manager holds no open connection; the next [connect], on a server that
    accepts it, calls [psycopg2.connect] with the configuration the manager
    was built with, marks the new session read-only and stores it. *)
Theorem pg_reconnects_after_close (d : Postgres.driver)
    (m : Postgres.DatabaseManager) :
  Postgres.on_connect d = Return tt ->
  Postgres.on_set_session d = Return tt ->
  Postgres.needs_connect (fields (Postgres.close m)) = true
  /\ Postgres.connect d (fields (Postgres.close m))
     = (Return tt,
        Postgres.Manager (Postgres.db_config m)
          (Some (Postgres.Connection 0 true)),
        [Postgres.Connect (Postgres.db_config m); Postgres.SetSession]).
Proof.
  intros Hco Hss.
  assert (Postgres.needs_connect (fields (Postgres.close m)) = true
          /\ Postgres.db_config (fields (Postgres.close m)) = Postgres.db_config m)
    as [Hn Hcfg].
  { unfold Postgres.close, Postgres.needs_connect, bind, get, fields.
    destruct m as [cfg [[z ro]|]]; simpl; [|done].
    unfold int_truthy. destruct (z =? 0) eqn:Hz; simpl; [done|].
    by rewrite Hz. }
  split; [exact Hn|].
  destruct (pg_connect_cases d (fields (Postgres.close m)))
    as [[H _]|[_ [(e & H & _)|[(_ & e & H & _)|(_ & _ & H)]]]].
  - rewrite Hn in H. discriminate.
  - rewrite Hco in H. discriminate.
  - rewrite Hss in H. discriminate.
  - by rewrite H, Hcfg.
Qed.

Lemma pg_reconnects_after_close_witness :
  Postgres.needs_connect (fields (Postgres.close pg_connected)) = true
  /\ Postgres.connect pg_example (fields (Postgres.close pg_connected))
     = (Return tt,
        Postgres.Manager (Postgres.db_config pg_connected)
          (Some (Postgres.Connection 0 true)),
        [Postgres.Connect (Postgres.db_config pg_connected);
         Postgres.SetSession]).
Proof.
  apply (pg_reconnects_after_close pg_example pg_connected); reflexivity.
Defined.

(** ** Relational operations, step by step *)

Lemma pg_connect_ok (d : Postgres.driver) (m : Postgres.DatabaseManager) :
  outcome (Postgres.connect d m) = Return tt ->
  exists c,
    Postgres.conn (fields (Postgres.connect d m)) = Some c
    /\ int_truthy (Postgres.closed c) = false
    /\ (live_readonly m -> Postgres.readonly c = true)
    /\ (trace (Postgres.connect d m) = []
        \/ trace (Postgres.connect d m)
           = [Postgres.Connect (Postgres.db_config m); Postgres.SetSession]).
Proof.
  intros Hc.
  destruct (pg_connect_cases d m)
    as [[Hn H]|[_ [(e & _ & H)|[(_ & e & _ & H)|(_ & _ & H)]]]];
    rewrite H in *; unfold outcome, fields, trace in *; simpl in *;
    try discriminate.
  - unfold Postgres.needs_connect in Hn.
    destruct (Postgres.conn m) as [c|] eqn:Hconn; [|discriminate].
    exists c. split; [done|]. split; [done|]. split; [|by left].
    intros Hro. apply (Hro c Hconn).
    unfold int_truthy in Hn. apply negb_false_iff, Z.eqb_eq in Hn. exact Hn.
  - eexists. split; [done|]. split; [done|]. split; [done|]. by right.
Qed.

Lemma int_truthy_false (z : Z) : int_truthy z = false -> z = 0.
Proof. unfold int_truthy. intros H. by apply negb_false_iff, Z.eqb_eq in H. Qed.

(** The two steps every relational operation ends with, when [connect]
    fails and when it returns. *)
Lemma pg_operation_stops {A : Type} (d : Postgres.driver)
    (m : Postgres.DatabaseManager) (what : string) (q : Postgres.query)
    (params : list string) (answer : result A) (e : exn) :
  outcome (Postgres.connect d m) = Raise e ->
  stops_at
    ((Postgres.connect d ;;
      Postgres.logged what (Postgres.cursor_execute q params answer)) m)
    (Postgres.connect d m) e.
Proof.
  intros Hc. unfold stops_at.
  destruct (Postgres.connect d m) as [[r m1] t1] eqn:E.
  unfold outcome in Hc. simpl in Hc. subst r.
  by rewrite (bind_raise _ _ m m1 e t1 E).
Qed.

Lemma pg_operation_runs {A : Type} (d : Postgres.driver)
    (m : Postgres.DatabaseManager) (what : string) (q : Postgres.query)
    (params : list string) (answer : result A) :
  outcome (Postgres.connect d m) = Return tt ->
  exists c,
    Postgres.conn (fields (Postgres.connect d m)) = Some c
    /\ Postgres.closed c = 0
    /\ (Postgres.connect d ;;
        Postgres.logged what (Postgres.cursor_execute q params answer)) m
       = (answer, fields (Postgres.connect d m),
          (trace (Postgres.connect d m)
           ++ Postgres.Execute c q params
              :: match answer with
                 | Return _ => []
                 | Raise e => pg_query_log what e
                 end)%list).
Proof.
  intros Hc. destruct (pg_connect_ok d m Hc) as (c & Hconn & Hopen & _ & _).
  exists c. split; [done|]. split; [by apply int_truthy_false|].
  destruct (Postgres.connect d m) as [[r m1] t1] eqn:E.
  unfold outcome, fields, trace in *. simpl in *. subst r.
  rewrite (bind_return _ _ m m1 tt t1 E).
  pose proof (pg_query_cases what q params answer m1) as Hq. simpl in Hq.
  rewrite Hconn, Hopen in Hq.
  destruct answer as [rows|e]; rewrite Hq; reflexivity.
Qed.

(** A [connect] that raises has sent no query; when the exception is a
    [psycopg2.Error], the last thing it recorded is the log line. *)
Lemma pg_connect_failure_trace (d : Postgres.driver)
    (m : Postgres.DatabaseManager) (e : exn) :
  outcome (Postgres.connect d m) = Raise e ->
  (forall c q params,
     ~ In (Postgres.Execute c q params) (trace (Postgres.connect d m)))
  /\ (Postgres.is_psycopg2_error e = true ->
      exists t, trace (Postgres.connect d m)
                = (t ++ [Postgres.LogError
                           ("Error connecting to database: " ++ exn_str e)])%list).
Proof.
  intros Hc. split.
  - intros c q params Hin.
    destruct (pg_connect_cases d m)
      as [[_ H]|[_ [(e' & _ & H)|[(_ & e' & _ & H)|(_ & _ & H)]]]];
      rewrite H in Hin, Hc; unfold outcome, trace, pg_connect_log in *;
      simpl in *; try discriminate;
      destruct (Postgres.is_psycopg2_error e'); simpl in Hin;
      intuition discriminate.
  - intros He.
    destruct (pg_connect_cases d m)
      as [[_ H]|[_ [(e' & _ & H)|[(_ & e' & _ & H)|(_ & _ & H)]]]];
      rewrite H in Hc |- *; unfold outcome, trace, pg_connect_log in *;
      simpl in *; try discriminate; injection Hc as ->; rewrite He.
    + by exists [Postgres.Connect (Postgres.db_config m)].
    + by exists [Postgres.Connect (Postgres.db_config m); Postgres.SetSession].
Qed.

(** X10.  When [connect] fails on the relational backend, for whatever
    reason, every operation called with valid names stops there: it raises
    the exception [connect] raised, leaves the manager as [connect] left it
    and sends no query; when the exception is a [psycopg2.Error], the last
    thing recorded is the log line "Error connecting to database: ...". *)
Theorem pg_connect_failure_stops_operation (d : Postgres.driver)
    (m : Postgres.DatabaseManager) (schema table : string) (e : exn) :
  Re.match_name schema = true ->
  Re.match_name table = true ->
  outcome (Postgres.connect d m) = Raise e ->
  (forall c q params,
     ~ In (Postgres.Execute c q params) (trace (Postgres.connect d m)))
  /\ (Postgres.is_psycopg2_error e = true ->
      exists t, trace (Postgres.connect d m)
                = (t ++ [Postgres.LogError
                           ("Error connecting to database: " ++ exn_str e)])%list)
  /\ stops_at (Postgres.list_schemas d m) (Postgres.connect d m) e
  /\ stops_at (Postgres.list_tables d schema m) (Postgres.connect d m) e
  /\ stops_at (Postgres.describe_table d schema table m) (Postgres.connect d m) e
  /\ stops_at (Postgres.get_table_indexes d schema table m)
       (Postgres.connect d m) e
  /\ stops_at (Postgres.get_table_constraints d schema table m)
       (Postgres.connect d m) e.
Proof.
  intros Hs Ht Hc.
  destruct (pg_connect_failure_trace d m e Hc) as [Hno Hlog].
  split; [exact Hno|]. split; [exact Hlog|].
  unfold Postgres.list_schemas, Postgres.list_tables, Postgres.describe_table,
    Postgres.get_table_indexes, Postgres.get_table_constraints.
  rewrite !validated_then by done.
  repeat split; apply (pg_operation_stops d m _ _ _ _ e Hc).
Qed.

Lemma pg_connect_failure_stops_operation_witness :
  stops_at
    (Postgres.list_tables (pg_unreachable (DriverError "down")) "public"
       (Postgres.init ∅))
    (Postgres.connect (pg_unreachable (DriverError "down")) (Postgres.init ∅))
    (DriverError "down").
Proof.
  pose proof (pg_connect_failure_stops_operation
                (pg_unreachable (DriverError "down")) (Postgres.init ∅)
                "public" "users" (DriverError "down")
                eq_refl eq_refl eq_refl) as (_ & _ & _ & H & _).
  exact H.
Defined.

(** X11.  The relational backend logs [psycopg2.Error] only: when the query
    fails with an exception of another class, every operation lets that
    exception through to the caller and records no log line at all. *)
Theorem pg_foreign_exception_not_logged (d : Postgres.driver)
    (m : Postgres.DatabaseManager) (schema table : string) (e : exn) :
  Re.match_name schema = true ->
  Re.match_name table = true ->
  outcome (Postgres.connect d m) = Return tt ->
  pg_queries_fail d e ->
  Postgres.is_psycopg2_error e = false ->
  pg_raised_unlogged (Postgres.list_schemas d m) e
  /\ pg_raised_unlogged (Postgres.list_tables d schema m) e
  /\ pg_raised_unlogged (Postgres.describe_table d schema table m) e
  /\ pg_raised_unlogged (Postgres.get_table_indexes d schema table m) e
  /\ pg_raised_unlogged (Postgres.get_table_constraints d schema table m) e.
Proof.
  intros Hs Ht Hc (P1 & P2 & P3 & P4 & P5) He.
  assert (forall (A : Type) what q params,
    pg_raised_unlogged
      ((Postgres.connect d ;;
        Postgres.logged what
          (Postgres.cursor_execute (A:=A) q params (Raise e))) m) e) as Hrun.
  { intros A what q params.
    destruct (pg_operation_runs d m what q params (@Raise A e) Hc)
      as (c & _ & _ & ->).
    destruct (pg_connect_ok d m Hc) as (_ & _ & _ & _ & Htr).
    unfold pg_raised_unlogged, pg_no_log, outcome, trace, pg_query_log.
    simpl. rewrite He. split; [done|]. intros msg Hin.
    apply in_app_or in Hin as [Hin|Hin].
    - destruct Htr as [Htr|Htr]; unfold trace in Htr; rewrite Htr in Hin;
        simpl in Hin; intuition discriminate.
    - simpl in Hin. intuition discriminate. }
  unfold Postgres.list_schemas, Postgres.list_tables, Postgres.describe_table,
    Postgres.get_table_indexes, Postgres.get_table_constraints.
  rewrite !validated_then by done.
  rewrite P1, (P2 schema), (P3 schema table), (P4 schema table),
    (P5 schema table).
  repeat split; apply Hrun.
Qed.

Lemma pg_foreign_exception_not_logged_witness :
  pg_raised_unlogged
    (Postgres.describe_table (pg_failing (KeyError "column_name")) "public"
       "users" (Postgres.init ∅))
    (KeyError "column_name").
Proof.
  assert (pg_queries_fail (pg_failing (KeyError "column_name"))
            (KeyError "column_name")) as Hpf by (repeat split).
  pose proof (pg_foreign_exception_not_logged
                (pg_failing (KeyError "column_name")) (Postgres.init ∅)
                "public" "users" (KeyError "column_name")
                eq_refl eq_refl eq_refl Hpf eq_refl) as (_ & _ & H & _).
  exact H.
Defined.

Lemma pg_body_exec_readonly {A : Type} (d : Postgres.driver)
    (m : Postgres.DatabaseManager) (what : string) (q : Postgres.query)
    (params : list string) (answer : result A) :
  live_readonly m ->
  pg_exec_readonly
    (trace ((Postgres.connect d ;;
             Postgres.logged what (Postgres.cursor_execute q params answer)) m)).
Proof.
  intros Hro. destruct (outcome (Postgres.connect d m)) as [[]|e] eqn:Hc.
  - destruct (pg_operation_runs d m what q params answer Hc)
      as (c & Hconn & Hopen & ->).
    destruct (pg_connect_ok d m Hc) as (c' & Hconn' & _ & Hread & Htr).
    rewrite Hconn in Hconn'. injection Hconn' as <-.
    intros c0 q0 p0 Hin. unfold trace in Hin. simpl in Hin.
    apply in_app_or in Hin as [Hin|Hin].
    + destruct Htr as [Htr|Htr]; unfold trace in Htr; rewrite Htr in Hin;
        simpl in Hin; intuition discriminate.
    + assert (c0 = c) as ->; [|by auto].
      destruct Hin as [Hin|Hin]; [congruence|].
      destruct answer as [rows|e]; simpl in Hin; [done|].
      unfold pg_query_log in Hin.
      destruct (Postgres.is_psycopg2_error e); simpl in Hin;
        intuition discriminate.
  - destruct (pg_operation_stops d m what q params answer e Hc) as (_ & _ & ->).
    destruct (pg_connect_failure_trace d m e Hc) as [Hno _].
    intros c0 q0 p0 Hin. by apply Hno in Hin.
Qed.

(** X12.  On a manager whose live connection, if it holds one, is read-only
    (a fresh manager in particular), every query that one operation of the
    relational backend sends, whatever the arguments and whatever the server
    answers, is sent on an open connection marked read-only: when
    [set_session] fails the operation stops before its query. *)
Theorem pg_queries_run_readonly (d : Postgres.driver)
    (m : Postgres.DatabaseManager) (schema table : string) :
  live_readonly m ->
  pg_exec_readonly (trace (Postgres.list_schemas d m))
  /\ pg_exec_readonly (trace (Postgres.list_tables d schema m))
  /\ pg_exec_readonly (trace (Postgres.describe_table d schema table m))
  /\ pg_exec_readonly (trace (Postgres.get_table_indexes d schema table m))
  /\ pg_exec_readonly (trace (Postgres.get_table_constraints d schema table m)).
Proof.
  intros Hro.
  assert (pg_exec_readonly []) as Hnil by (intros c q p []).
  unfold Postgres.list_schemas, Postgres.list_tables, Postgres.describe_table,
    Postgres.get_table_indexes, Postgres.get_table_constraints.
  split; [by apply pg_body_exec_readonly|].
  split; [|split; [|split]];
    repeat
      match goal with
      | |- pg_exec_readonly (trace ((lift (validate_name ?a ?la) ;; ?k) m)) =>
          destruct (validated_cases (S:=Postgres.DatabaseManager)
                      (E:=Postgres.event) a la k m) as [[_ ->]|[_ ->]];
          [|exact Hnil]
      end;
    by apply pg_body_exec_readonly.
Qed.

Lemma pg_queries_run_readonly_witness :
  pg_exec_readonly
    (trace (Postgres.list_schemas pg_refusing_readonly (Postgres.init ∅)))
  /\ pg_exec_readonly
       (trace (Postgres.describe_table pg_example "public" "users"
                 (Postgres.init ∅))).
Proof.
  assert (live_readonly (Postgres.init ∅)) as Hfresh by (intros c Hc; discriminate).
  split.
  - exact (proj1 (pg_queries_run_readonly pg_refusing_readonly
                    (Postgres.init ∅) "public" "users" Hfresh)).
  - exact (proj1 (proj2 (proj2 (pg_queries_run_readonly pg_example
                    (Postgres.init ∅) "public" "users" Hfresh)))).
Defined.

(** X13.  With valid names, a connection that is there and a server that
    answers, each operation of the relational backend sends exactly one
    query on the connection [connect] left, with the names as bound
    parameters in argument order, and returns the server's rows as they
    came, in the server's order. *)
Theorem pg_operations_pass_rows_through (d : Postgres.driver)
    (m : Postgres.DatabaseManager) (schema table : string)
    (schemas tables : list string) (columns : list Postgres.column_row)
    (indexes : list Postgres.index_row)
    (constraints : list Postgres.constraint_row) :
  Re.match_name schema = true ->
  Re.match_name table = true ->
  outcome (Postgres.connect d m) = Return tt ->
  Postgres.on_schemata d = Return schemas ->
  Postgres.on_tables d schema = Return tables ->
  Postgres.on_columns d schema table = Return columns ->
  Postgres.on_indexes d schema table = Return indexes ->
  Postgres.on_constraints d schema table = Return constraints ->
  exists c,
    Postgres.conn (fields (Postgres.connect d m)) = Some c
    /\ Postgres.closed c = 0
    /\ pg_returns_rows (Postgres.list_schemas d m) (Postgres.connect d m)
         schemas c Postgres.Q_schemata []
    /\ pg_returns_rows (Postgres.list_tables d schema m) (Postgres.connect d m)
         tables c Postgres.Q_tables [schema]
    /\ pg_returns_rows (Postgres.describe_table d schema table m)
         (Postgres.connect d m) columns c Postgres.Q_columns [schema; table]
    /\ pg_returns_rows (Postgres.get_table_indexes d schema table m)
         (Postgres.connect d m) indexes c Postgres.Q_indexes [schema; table]
    /\ pg_returns_rows (Postgres.get_table_constraints d schema table m)
         (Postgres.connect d m) constraints c Postgres.Q_constraints
         [schema; table].
Proof.
  intros Hs Ht Hc A1 A2 A3 A4 A5.
  destruct (pg_connect_ok d m Hc) as (c & Hconn & Hopen & _ & _).
  exists c. split; [done|]. split; [by apply int_truthy_false|].
  assert (forall (A : Type) what q params (rows : A),
    pg_returns_rows
      ((Postgres.connect d ;;
        Postgres.logged what
          (Postgres.cursor_execute q params (Return rows))) m)
      (Postgres.connect d m) rows c q params) as Hrun.
  { intros A what q params rows.
    destruct (pg_operation_runs d m what q params (Return rows) Hc)
      as (c' & Hconn' & _ & ->).
    rewrite Hconn in Hconn'. injection Hconn' as <-. reflexivity. }
  unfold Postgres.list_schemas, Postgres.list_tables, Postgres.describe_table,
    Postgres.get_table_indexes, Postgres.get_table_constraints.
  rewrite !validated_then by done.
  rewrite A1, A2, A3, A4, A5.
  repeat split; apply Hrun.
Qed.

Lemma pg_operations_pass_rows_through_witness :
  exists c,
    Postgres.conn (fields (Postgres.connect pg_example (Postgres.init ∅)))
    = Some c
    /\ Postgres.closed c = 0
    /\ pg_returns_rows (Postgres.list_tables pg_example "public" (Postgres.init ∅))
         (Postgres.connect pg_example (Postgres.init ∅))
         ["orders"; "users"] c Postgres.Q_tables ["public"].
Proof.
  destruct (pg_operations_pass_rows_through pg_example (Postgres.init ∅)
              "public" "users" _ _ _ _ _
              eq_refl eq_refl eq_refl eq_refl eq_refl eq_refl eq_refl eq_refl)
    as (c & H1 & H2 & _ & H3 & _).
  exists c. auto.
Defined.

(** X14.  No method of the relational manager changes the configuration it
    was built with: after [connect], [close] and each of the five
    operations, whatever the arguments and whatever the server answers,
    [db_config] is what it was, so a reconnection uses the original
    settings. *)
Theorem pg_config_unchanged (d : Postgres.driver)
    (m : Postgres.DatabaseManager) (schema table : string) :
  Postgres.db_config (fields (Postgres.connect d m)) = Postgres.db_config m
  /\ Postgres.db_config (fields (Postgres.close m)) = Postgres.db_config m
  /\ Postgres.db_config (fields (Postgres.list_schemas d m))
     = Postgres.db_config m
  /\ Postgres.db_config (fields (Postgres.list_tables d schema m))
     = Postgres.db_config m
  /\ Postgres.db_config (fields (Postgres.describe_table d schema table m))
     = Postgres.db_config m
  /\ Postgres.db_config (fields (Postgres.get_table_indexes d schema table m))
     = Postgres.db_config m
  /\ Postgres.db_config (fields (Postgres.get_table_constraints d schema table m))
     = Postgres.db_config m.
Proof.
  assert (Postgres.db_config (fields (Postgres.connect d m))
          = Postgres.db_config m) as Hconnect.
  { destruct (pg_connect_cases d m)
      as [[_ H]|[_ [(e & _ & H)|[(_ & e & _ & H)|(_ & _ & H)]]]];
      by rewrite H. }
  assert (forall (A : Type) what q params (answer : result A),
    Postgres.db_config
      (fields ((Postgres.connect d ;;
                Postgres.logged what
                  (Postgres.cursor_execute q params answer)) m))
    = Postgres.db_config m) as Hbody.
  { intros A what q params answer.
    destruct (outcome (Postgres.connect d m)) as [[]|e] eqn:Hc.
    - destruct (pg_operation_runs d m what q params answer Hc)
        as (c & _ & _ & ->). exact Hconnect.
    - destruct (pg_operation_stops d m what q params answer e Hc)
        as (_ & -> & _). exact Hconnect. }
  split; [exact Hconnect|]. split.
  { unfold Postgres.close, bind, get, fields.
    destruct m as [cfg [[z ro]|]]; simpl; [|done].
    by destruct (negb (int_truthy z)). }
  unfold Postgres.list_schemas, Postgres.list_tables, Postgres.describe_table,
    Postgres.get_table_indexes, Postgres.get_table_constraints.
  split; [apply Hbody|].
  repeat split;
    repeat
      match goal with
      | |- context [(lift (validate_name ?a ?la) ;; ?k) m] =>
          destruct (validated_cases (S:=Postgres.DatabaseManager)
                      (E:=Postgres.event) a la k m) as [[_ ->]|[_ ->]];
          [|reflexivity]
      end;
    apply Hbody.
Qed.

(** ** The wide-column connection, case by case *)

Lemma sc_auth_provider (cfg : gmap string string) :
  (if opt_truthy (cfg !! "user") && opt_truthy (cfg !! "password")
   then Some (default "" (cfg !! "user"), default "" (cfg !! "password"))
   else None)
  = match cfg !! "user", cfg !! "password" with
    | Some u, Some p => if str_truthy u && str_truthy p then Some (u, p) else None
    | _, _ => None
    end.
Proof.
  destruct (cfg !! "user") as [u|], (cfg !! "password") as [p|]; simpl;
    try done.
  by rewrite andb_false_r.
Qed.

Lemma sc_connect_cases (d : Scylla.driver) (m : Scylla.DatabaseManager) :
  (Scylla.needs_connect m = false
   /\ Scylla.connect d m = (Return tt, m, []))
  \/ (Scylla.needs_connect m = true
      /\ ((exists e, Scylla.py_int (sc_port_setting m) = Raise e
             /\ Scylla.connect d m = (Raise e, m, [sc_connect_log e]))
          \/ (exists port, Scylla.py_int (sc_port_setting m) = Return port
              /\ ((exists e, Scylla.on_new_cluster d = Raise e
                     /\ Scylla.connect d m
                        = (Raise e, m,
                           [sc_new_cluster (Scylla.db_config m) port;
                            sc_connect_log e]))
                  \/ (Scylla.on_new_cluster d = Return tt
                      /\ exists e, Scylla.on_connect d = Raise e
                         /\ Scylla.connect d m
                            = (Raise e,
                               Scylla.Manager (Scylla.db_config m)
                                 (Some (Scylla.Cluster false))
                                 (Scylla.the_session m),
                               [sc_new_cluster (Scylla.db_config m) port;
                                Scylla.ClusterConnect; sc_connect_log e]))
                  \/ (Scylla.on_new_cluster d = Return tt
                      /\ Scylla.on_connect d = Return tt
                      /\ Scylla.connect d m
                         = (Return tt,
                            Scylla.Manager (Scylla.db_config m)
                              (Some (Scylla.Cluster false))
                              (Some (Scylla.Session false)),
                            [sc_new_cluster (Scylla.db_config m) port;
                             Scylla.ClusterConnect;
                             Scylla.LogInfo "Connected to ScyllaDB cluster"])))))).
Proof.
  unfold Scylla.connect, bind, get. simpl.
  destruct (Scylla.needs_connect m) eqn:Hn; [right|left; done].
  split; [done|].
  unfold try_except, bind, lift, emit, raise, Scylla.set_cluster,
    Scylla.set_session, get, put, sc_connect_log, sc_new_cluster,
    sc_port_setting.
  simpl. rewrite sc_auth_provider.
  destruct (Scylla.py_int _) as [port|e]; simpl; [right|left; by exists e].
  exists port. split; [done|].
  destruct (Scylla.on_new_cluster d) as [[]|e]; simpl; [right|left; by exists e].
  destruct (Scylla.on_connect d) as [[]|e]; simpl; [right; done|left].
  split; [done|]. by exists e.
Qed.

Lemma sc_operation_stops {A B : Type} (d : Scylla.driver)
    (m : Scylla.DatabaseManager) (what : string) (q : Scylla.query)
    (params : list string) (answer : result A) (f : A -> B) (e : exn) :
  outcome (Scylla.connect d m) = Raise e ->
  stops_at
    ((Scylla.connect d ;;
      Scylla.logged what
        (r <- Scylla.session_execute q params answer ;; ret (f r))) m)
    (Scylla.connect d m) e.
Proof.
  intros Hc. unfold stops_at.
  destruct (Scylla.connect d m) as [[r m1] t1] eqn:E.
  unfold outcome in Hc. simpl in Hc. subst r.
  by rewrite (bind_raise _ _ m m1 e t1 E).
Qed.

(** A [connect] that raises has sent no query and recorded the log line
    last. *)
Lemma sc_connect_failure_trace (d : Scylla.driver)
    (m : Scylla.DatabaseManager) (e : exn) :
  outcome (Scylla.connect d m) = Raise e ->
  sc_no_query (trace (Scylla.connect d m))
  /\ exists t, trace (Scylla.connect d m) = (t ++ [sc_connect_log e])%list.
Proof.
  intros Hc.
  destruct (sc_connect_cases d m)
    as [[_ H]|[_ [(e' & _ & H)|(port & _ & [(e' & _ & H)|[(_ & e' & _ & H)|(_ & _ & H)]])]]];
    rewrite H in Hc |- *; unfold outcome, trace, sc_no_query, sc_new_cluster,
      sc_connect_log in *;
    simpl in *; try discriminate; injection Hc as ->.
  - split; [intros q p Hin; simpl in Hin; intuition discriminate|].
    by exists [].
  - split; [intros q p Hin; simpl in Hin; intuition discriminate|].
    by eexists [_].
  - split; [intros q p Hin; simpl in Hin; intuition discriminate|].
    by eexists [_; _].
Qed.

(** X15.  When [connect] fails on the wide-column backend, for whatever
    reason and with whatever class of exception, every operation called
    with valid names stops there: it raises the exception [connect] raised,
    leaves the manager as [connect] left it and sends no query, and the
    last thing recorded is the log line "Error connecting to ScyllaDB: ...". *)
Theorem sc_connect_failure_stops_operation (d : Scylla.driver)
    (m : Scylla.DatabaseManager) (keyspace table : string) (e : exn) :
  Re.match_name keyspace = true ->
  Re.match_name table = true ->
  outcome (Scylla.connect d m) = Raise e ->
  sc_no_query (trace (Scylla.connect d m))
  /\ (exists t, trace (Scylla.connect d m) = (t ++ [sc_connect_log e])%list)
  /\ stops_at (Scylla.list_keyspaces d m) (Scylla.connect d m) e
  /\ stops_at (Scylla.list_tables d keyspace m) (Scylla.connect d m) e
  /\ stops_at (Scylla.describe_table d keyspace table m) (Scylla.connect d m) e
  /\ stops_at (Scylla.get_table_indexes d keyspace table m)
       (Scylla.connect d m) e
  /\ stops_at (Scylla.get_materialized_views d keyspace m)
       (Scylla.connect d m) e.
Proof.
  intros Hk Ht Hc.
  destruct (sc_connect_failure_trace d m e Hc) as [Hno Hlog].
  split; [exact Hno|]. split; [exact Hlog|].
  unfold Scylla.list_keyspaces, Scylla.list_tables, Scylla.describe_table,
    Scylla.get_table_indexes, Scylla.get_materialized_views.
  rewrite !validated_then by done.
  repeat split; apply (sc_operation_stops d m _ _ _ _ _ e Hc).
Qed.

Lemma sc_connect_failure_stops_operation_witness :
  stops_at
    (Scylla.describe_table (sc_unreachable (DriverError "no host")) "shop"
       "users" (Scylla.init ∅))
    (Scylla.connect (sc_unreachable (DriverError "no host")) (Scylla.init ∅))
    (DriverError "no host").
Proof.
  pose proof (sc_connect_failure_stops_operation
                (sc_unreachable (DriverError "no host")) (Scylla.init ∅)
                "shop" "users" (DriverError "no host")
                eq_refl eq_refl eq_refl) as (_ & _ & _ & _ & H & _).
  exact H.
Defined.

(** X16.  On the wide-column backend [connect] is lazy as well: once it has
    returned normally, calling it again, whatever the cluster would answer
    now, builds no second [Cluster], makes no call to the driver and leaves
    the manager as it is. *)
Theorem sc_connect_reuses_session (d d' : Scylla.driver)
    (m : Scylla.DatabaseManager) :
  outcome (Scylla.connect d m) = Return tt ->
  Scylla.connect d' (fields (Scylla.connect d m))
  = (Return tt, fields (Scylla.connect d m), []).
Proof.
  intros Hc. pose proof (sc_connect_live d m Hc) as Hlive.
  destruct (sc_connect_cases d' (fields (Scylla.connect d m)))
    as [[_ H]|[H _]]; [exact H|].
  rewrite Hlive in H. discriminate.
Qed.

Lemma sc_connect_reuses_session_witness :
  Scylla.connect (sc_unreachable (DriverError "no host"))
    (fields (Scylla.connect sc_example (Scylla.init ∅)))
  = (Return tt, fields (Scylla.connect sc_example (Scylla.init ∅)), []).
Proof.
  apply (sc_connect_reuses_session sc_example
           (sc_unreachable (DriverError "no host")) (Scylla.init ∅)).
  reflexivity.
Defined.

Lemma sc_close_fields (m : Scylla.DatabaseManager) :
  Scylla.needs_connect (fields (Scylla.close m)) = true
  /\ Scylla.db_config (fields (Scylla.close m)) = Scylla.db_config m.
Proof.
  destruct m as [cfg [[[|]]|] [[[|]]|]]; split; reflexivity.
Qed.

(** X17.  After [close], in whatever state the manager was, the wide-column
    manager holds no live session; the next [connect], when the port
    setting reads as an integer and the cluster accepts, builds a new
    [Cluster] from the configuration the manager was built with (the host
    or "localhost", the port, user and password only when both are set and
    non-empty), connects it and stores the new cluster and session. *)
Theorem sc_reconnects_after_close (d : Scylla.driver)
    (m : Scylla.DatabaseManager) (port : Z) :
  Scylla.py_int (sc_port_setting m) = Return port ->
  Scylla.on_new_cluster d = Return tt ->
  Scylla.on_connect d = Return tt ->
  Scylla.needs_connect (fields (Scylla.close m)) = true
  /\ Scylla.connect d (fields (Scylla.close m))
     = (Return tt,
        Scylla.Manager (Scylla.db_config m) (Some (Scylla.Cluster false))
          (Some (Scylla.Session false)),
        [sc_new_cluster (Scylla.db_config m) port; Scylla.ClusterConnect;
         Scylla.LogInfo "Connected to ScyllaDB cluster"]).
Proof.
  intros Hport Hnew Hco.
  destruct (sc_close_fields m) as [Hn Hcfg].
  split; [exact Hn|].
  assert (sc_port_setting (fields (Scylla.close m)) = sc_port_setting m) as Hp
    by (unfold sc_port_setting; by rewrite Hcfg).
  destruct (sc_connect_cases d (fields (Scylla.close m)))
    as [[H _]|[_ [(e' & H & _)|(port' & Hport' & [(e' & H & _)|[(_ & e' & H & _)|(_ & _ & H)]])]]].
  - rewrite Hn in H. discriminate.
  - rewrite Hp, Hport in H. discriminate.
  - rewrite Hnew in H. discriminate.
  - rewrite Hco in H. discriminate.
  - rewrite Hp, Hport in Hport'. injection Hport' as <-.
    by rewrite H, Hcfg.
Qed.

Lemma sc_reconnects_after_close_witness :
  Scylla.needs_connect (fields (Scylla.close sc_connected)) = true
  /\ Scylla.connect sc_example (fields (Scylla.close sc_connected))
     = (Return tt,
        Scylla.Manager (Scylla.db_config sc_connected)
          (Some (Scylla.Cluster false)) (Some (Scylla.Session false)),
        [sc_new_cluster (Scylla.db_config sc_connected) 9042;
         Scylla.ClusterConnect;
         Scylla.LogInfo "Connected to ScyllaDB cluster"]).
Proof.
  apply (sc_reconnects_after_close sc_example sc_connected 9042); reflexivity.
Defined.

(** ** The port setting *)

Lemma digit_not_letter (c : ascii) :
  Re.in_range "0" "9" c = true -> is_letter c = false.
Proof.
  destruct c as [[] [] [] [] [] [] [] []]; vm_compute; congruence.
Qed.

Lemma sign_not_letter (c : ascii) :
  Ascii.eqb c "-" = true \/ Ascii.eqb c "+" = true -> is_letter c = false.
Proof.
  intros [H|H]; apply Ascii.eqb_eq in H; by subst c.
Qed.

Lemma parse_digits_letter (s : string) (acc : Z) :
  has_letter s = true -> Scylla.parse_digits acc s = None.
Proof.
  revert acc. induction s as [|c s IH]; intros acc; simpl; [done|].
  destruct (Re.in_range "0" "9" c) eqn:Hd; [|done].
  rewrite (digit_not_letter c Hd). simpl. apply IH.
Qed.

(** [int] rejects every string that holds a letter. *)
Lemma py_int_letter (s : string) :
  has_letter s = true -> exists msg, Scylla.py_int s = Raise (ValueError msg).
Proof.
  intros H. unfold Scylla.py_int.
  destruct s as [|c rest]; [discriminate|].
  assert (forall sign ds, has_letter ds = true ->
    exists msg,
      match ds with
      | "" => Raise (ValueError
                       ("invalid literal for int() with base 10: '"
                        ++ String c rest ++ "'"))
      | String _ _ =>
          match Scylla.parse_digits 0 ds with
          | Some z => Return (sign * z)
          | None => Raise (ValueError
                             ("invalid literal for int() with base 10: '"
                              ++ String c rest ++ "'"))
          end
      end = Raise (ValueError msg)) as Hdigits.
  { intros sign ds Hds. destruct ds as [|c' ds']; [discriminate|].
    rewrite (parse_digits_letter _ 0 Hds). eauto. }
  destruct (Ascii.eqb c "-") eqn:Hm.
  { apply Hdigits. simpl in H.
    by rewrite (sign_not_letter c (or_introl Hm)) in H. }
  destruct (Ascii.eqb c "+") eqn:Hp.
  { apply Hdigits. simpl in H.
    by rewrite (sign_not_letter c (or_intror Hp)) in H. }
  exact (Hdigits 1 (String c rest) H).
Qed.

(** X18.  A port setting that holds a letter makes the wide-column
    [connect] fail before anything is asked of the driver: [int] raises a
    [ValueError], the handler logs "Error connecting to ScyllaDB: ..." and
    raises it again, no [Cluster] is built and the manager is left as it
    was. *)
Theorem sc_bad_port_fails_before_driver (d : Scylla.driver)
    (m : Scylla.DatabaseManager) :
  Scylla.needs_connect m = true ->
  has_letter (sc_port_setting m) = true ->
  exists msg,
    Scylla.connect d m
    = (Raise (ValueError msg), m, [sc_connect_log (ValueError msg)]).
Proof.
  intros Hn Hport. destruct (py_int_letter _ Hport) as [msg Hint].
  exists msg.
  destruct (sc_connect_cases d m)
    as [[H _]|[_ [(e' & H & Hr)|(port' & H & _)]]].
  - rewrite Hn in H. discriminate.
  - rewrite Hint in H. injection H as <-. exact Hr.
  - rewrite Hint in H. discriminate.
Qed.

Lemma sc_bad_port_fails_before_driver_witness :
  exists msg,
    Scylla.connect sc_example sc_bad_port_manager
    = (Raise (ValueError msg), sc_bad_port_manager,
       [sc_connect_log (ValueError msg)]).
Proof.
  apply (sc_bad_port_fails_before_driver sc_example sc_bad_port_manager);
    reflexivity.
Defined.

Lemma sc_query_fields {A B : Type} (what : string) (q : Scylla.query)
    (params : list string) (answer : result A) (f : A -> B)
    (m : Scylla.DatabaseManager) :
  fields (Scylla.logged what
            (r <- Scylla.session_execute q params answer ;; ret (f r)) m) = m.
Proof.
  unfold Scylla.logged, try_except, Scylla.session_execute, bind, get, lift,
    emit, raise, ret, fields.
  simpl. destruct (Scylla.the_session m) as [[[|]]|]; simpl; try done.
  by destruct answer.
Qed.

(** X19.  No method of the wide-column manager changes the configuration it
    was built with: after [connect], [close] and each of the five
    operations, whatever the arguments and whatever the cluster answers,
    [db_config] is what it was. *)
Theorem sc_config_unchanged (d : Scylla.driver)
    (m : Scylla.DatabaseManager) (keyspace table : string) :
  Scylla.db_config (fields (Scylla.connect d m)) = Scylla.db_config m
  /\ Scylla.db_config (fields (Scylla.close m)) = Scylla.db_config m
  /\ Scylla.db_config (fields (Scylla.list_keyspaces d m)) = Scylla.db_config m
  /\ Scylla.db_config (fields (Scylla.list_tables d keyspace m))
     = Scylla.db_config m
  /\ Scylla.db_config (fields (Scylla.describe_table d keyspace table m))
     = Scylla.db_config m
  /\ Scylla.db_config (fields (Scylla.get_table_indexes d keyspace table m))
     = Scylla.db_config m
  /\ Scylla.db_config (fields (Scylla.get_materialized_views d keyspace m))
     = Scylla.db_config m.
Proof.
  assert (Scylla.db_config (fields (Scylla.connect d m))
          = Scylla.db_config m) as Hconnect.
  { destruct (sc_connect_cases d m)
      as [[_ H]|[_ [(e' & _ & H)|(port & _ & [(e' & _ & H)|[(_ & e' & _ & H)|(_ & _ & H)]])]]];
      by rewrite H. }
  assert (forall (A B : Type) what q params (answer : result A) (f : A -> B),
    Scylla.db_config
      (fields ((Scylla.connect d ;;
                Scylla.logged what
                  (r <- Scylla.session_execute q params answer ;; ret (f r))) m))
    = Scylla.db_config m) as Hbody.
  { intros A B what q params answer f.
    destruct (Scylla.connect d m) as [[[[]|e] m1] t1] eqn:E.
    - rewrite (bind_return _ _ m m1 tt t1 E).
      unfold fields at 1. simpl. by rewrite sc_query_fields.
    - by rewrite (bind_raise _ _ m m1 e t1 E). }
  split; [exact Hconnect|]. split; [apply sc_close_fields|].
  unfold Scylla.list_keyspaces, Scylla.list_tables, Scylla.describe_table,
    Scylla.get_table_indexes, Scylla.get_materialized_views.
  split; [apply Hbody|].
  repeat split;
    repeat
      match goal with
      | |- context [(lift (validate_name ?a ?la) ;; ?k) m] =>
          destruct (validated_cases (S:=Scylla.DatabaseManager)
                      (E:=Scylla.event) a la k m) as [[_ ->]|[_ ->]];
          [|reflexivity]
      end;
    apply Hbody.
Qed.

(** ** The relational tools *)

Lemma pg_get_db_enter_spec (environ : gmap string string) :
  PostgresMain.get_db_enter environ
  = if credentials_present environ
    then Return (Postgres.init (PostgresMain.get_db_config environ))
    else Raise (ValueError PostgresMain.credentials_required).
Proof.
  unfold PostgresMain.get_db_enter, PostgresMain.getitem, credentials_present.
  destruct (get_db_config_lookup environ) as (-> & -> & ->).
  unfold PostgresMain.getenv.
  destruct (environ !! "POSTGRES_USER") as [u|]; simpl; [|done].
  destruct (str_truthy u); simpl; [|done].
  destruct (environ !! "POSTGRES_PASSWORD") as [p|]; simpl; [|done].
  destruct (str_truthy p); simpl; [|done].
  destruct (environ !! "POSTGRES_DATABASE") as [n|]; simpl; [|done].
  by destruct (str_truthy n).
Qed.

Lemma pg_get_db_config_kwargs (environ : gmap string string) :
  pg_connect_kwargs environ (PostgresMain.get_db_config environ).
Proof.
  unfold pg_connect_kwargs, PostgresMain.get_db_config, PostgresMain.getenv.
  do 5 (split; [by simplify_map_eq|]).
  intros key Hkey. simpl in Hkey.
  rewrite !lookup_insert_ne by (intros Heq; apply Hkey; rewrite <- Heq; auto 10).
  apply lookup_empty.
Qed.

(** X20.  [get_db] of the relational entry point yields a manager exactly
    when POSTGRES_USER, POSTGRES_PASSWORD and POSTGRES_DATABASE are all set
    to non-empty strings, and the manager is then a fresh one built from
    the environment's settings; in every other case, a credential set to
    the empty string included, it raises the [ValueError] that names the
    three variables, never a [KeyError]. *)
Theorem pg_get_db_needs_nonempty_credentials (environ : gmap string string) :
  (credentials_present environ = true
   /\ PostgresMain.get_db_enter environ
      = Return (Postgres.init (PostgresMain.get_db_config environ))
   /\ pg_connect_kwargs environ (PostgresMain.get_db_config environ))
  \/ (credentials_present environ = false
      /\ PostgresMain.get_db_enter environ
         = Raise (ValueError PostgresMain.credentials_required)).
Proof.
  rewrite pg_get_db_enter_spec.
  destruct (credentials_present environ); [left|right]; [|done].
  split; [done|]. split; [done|]. apply pg_get_db_config_kwargs.
Qed.

Lemma pg_close_fresh (cfg : gmap string string) :
  Postgres.close (Postgres.init cfg) = (Return tt, Postgres.init cfg, []).
Proof. reflexivity. Qed.

Lemma pg_close_open (cfg : gmap string string) (ro : bool) :
  Postgres.close (Postgres.Manager cfg (Some (Postgres.Connection 0 ro)))
  = (Return tt, Postgres.Manager cfg (Some (Postgres.Connection 1 ro)),
     [Postgres.Close]).
Proof. reflexivity. Qed.

(** X21.  With the three credentials set, valid names and a server that
    accepts the connection and answers, each tool of the relational entry
    point calls [psycopg2.connect] with the settings of the environment
    (host and port defaulting to localhost and 5432), marks the session
    read-only, sends its one query on it, closes the connection and returns
    the server's rows. *)
Theorem pg_tool_call_success (environ : gmap string string)
    (d : Postgres.driver) (schema table : string)
    (schemas tables : list string) (columns : list Postgres.column_row)
    (indexes : list Postgres.index_row)
    (constraints : list Postgres.constraint_row) :
  credentials_present environ = true ->
  Re.match_name schema = true ->
  Re.match_name table = true ->
  Postgres.on_connect d = Return tt ->
  Postgres.on_set_session d = Return tt ->
  Postgres.on_schemata d = Return schemas ->
  Postgres.on_tables d schema = Return tables ->
  Postgres.on_columns d schema table = Return columns ->
  Postgres.on_indexes d schema table = Return indexes ->
  Postgres.on_constraints d schema table = Return constraints ->
  exists cfg,
    pg_connect_kwargs environ cfg
    /\ PostgresMain.list_schemas environ d
       = (Return schemas, pg_session_record cfg Postgres.Q_schemata [])
    /\ PostgresMain.list_tables environ d schema
       = (Return tables, pg_session_record cfg Postgres.Q_tables [schema])
    /\ PostgresMain.describe_table environ d schema table
       = (Return columns,
          pg_session_record cfg Postgres.Q_columns [schema; table])
    /\ PostgresMain.get_table_indexes environ d schema table
       = (Return indexes,
          pg_session_record cfg Postgres.Q_indexes [schema; table])
    /\ PostgresMain.get_table_constraints environ d schema table
       = (Return constraints,
          pg_session_record cfg Postgres.Q_constraints [schema; table]).
Proof.
  intros Hcred Hs Ht Hco Hss A1 A2 A3 A4 A5.
  exists (PostgresMain.get_db_config environ).
  split; [apply pg_get_db_config_kwargs|].
  set (cfg := PostgresMain.get_db_config environ).
  assert (Postgres.connect d (Postgres.init cfg)
          = (Return tt, Postgres.Manager cfg (Some (Postgres.Connection 0 true)),
             [Postgres.Connect cfg; Postgres.SetSession])) as Hconn.
  { destruct (pg_connect_cases d (Postgres.init cfg))
      as [[H _]|[_ [(e & H & _)|[(_ & e & H & _)|(_ & _ & H)]]]];
      [discriminate|rewrite Hco in H; discriminate
      |rewrite Hss in H; discriminate|exact H]. }
  assert (forall (A : Type) what q params (rows : A),
    PostgresMain.with_get_db environ
      (Postgres.connect d ;;
       Postgres.logged what (Postgres.cursor_execute q params (Return rows)))
    = (Return rows, pg_session_record cfg q params)) as Hrun.
  { intros A what q params rows. unfold PostgresMain.with_get_db.
    rewrite pg_get_db_enter_spec, Hcred. fold cfg.
    rewrite (bind_return _ _ _ _ _ _ Hconn).
    pose proof (pg_query_cases what q params (Return rows)
                  (Postgres.Manager cfg (Some (Postgres.Connection 0 true))))
      as Hq.
    simpl in Hq. rewrite Hq. unfold outcome, fields, trace. simpl.
    reflexivity. }
  unfold PostgresMain.list_schemas, PostgresMain.list_tables,
    PostgresMain.describe_table, PostgresMain.get_table_indexes,
    PostgresMain.get_table_constraints.
  unfold Postgres.list_schemas, Postgres.list_tables, Postgres.describe_table,
    Postgres.get_table_indexes, Postgres.get_table_constraints.
  assert (forall (A : Type) name label (k : M A),
    Re.match_name name = true ->
    PostgresMain.with_get_db environ (lift (validate_name name label) ;; k)
    = PostgresMain.with_get_db environ k) as Hval.
  { intros A name label k Hname. unfold PostgresMain.with_get_db.
    destruct (PostgresMain.get_db_enter environ) as [db|e]; [|done].
    by rewrite validated_then. }
  rewrite !Hval by done.
  rewrite A1, A2, A3, A4, A5.
  repeat split; apply Hrun.
Qed.

Lemma pg_tool_call_success_witness :
  exists cfg,
    pg_connect_kwargs pg_environ cfg
    /\ PostgresMain.list_tables pg_environ pg_example "public"
       = (Return ["orders"; "users"],
          pg_session_record cfg Postgres.Q_tables ["public"]).
Proof.
  destruct (pg_tool_call_success pg_environ pg_example "public" "users"
              _ _ _ _ _
              eq_refl eq_refl eq_refl eq_refl eq_refl
              eq_refl eq_refl eq_refl eq_refl eq_refl)
    as (cfg & H1 & _ & H2 & _).
  exists cfg. auto.
Defined.

(** A call on a fresh relational manager, once its arguments are
    validated. *)
Lemma pg_fresh_body {A : Type} (d : Postgres.driver) (cfg : gmap string string)
    (what : string) (q : Postgres.query) (params : list string)
    (answer : result A) :
  pg_fresh_run d cfg
    ((Postgres.connect d ;;
      Postgres.logged what (Postgres.cursor_execute q params answer))
       (Postgres.init cfg)).
Proof.
  assert (live_readonly (Postgres.init cfg)) as Hfresh
    by (intros c Hc; discriminate).
  unfold pg_fresh_run. split; [|split].
  2: by apply pg_body_exec_readonly.
  - destruct (pg_connect_cases d (Postgres.init cfg))
      as [[H _]|[_ [(e & _ & H)|[(_ & e & _ & H)|(_ & _ & H)]]]];
      [discriminate|..]; simpl in H.
    + rewrite (bind_raise _ _ _ _ _ _ H). unfold trace, pg_connect_log. simpl.
      destruct (Postgres.is_psycopg2_error e); simpl; intuition discriminate.
    + rewrite (bind_raise _ _ _ _ _ _ H). unfold trace, pg_connect_log. simpl.
      destruct (Postgres.is_psycopg2_error e); simpl; intuition discriminate.
    + rewrite (bind_return _ _ _ _ _ _ H).
      pose proof (pg_query_cases what q params answer
                    (Postgres.Manager cfg (Some (Postgres.Connection 0 true))))
        as Hq.
      simpl in Hq.
      destruct answer as [rows|e]; rewrite Hq; unfold trace, pg_query_log;
        simpl; [intuition discriminate|].
      destruct (Postgres.is_psycopg2_error e); simpl; intuition discriminate.
  - destruct (pg_connect_cases d (Postgres.init cfg))
      as [[H _]|[_ [(e & He & H)|[(Hco & e & _ & H)|(Hco & _ & H)]]]];
      [discriminate|..]; simpl in H.
    + left. rewrite (bind_raise _ _ _ _ _ _ H). split; [done|].
      intros [_ Hok]. rewrite He in Hok. discriminate.
    + right. rewrite (bind_raise _ _ _ _ _ _ H). split; [done|].
      split; [eexists; by left|by eexists].
    + right. rewrite (bind_return _ _ _ _ _ _ H). split; [done|].
      split; [eexists; by left|].
      pose proof (pg_query_cases what q params answer
                    (Postgres.Manager cfg (Some (Postgres.Connection 0 true))))
        as Hq.
      simpl in Hq. exists true.
      destruct answer as [rows|e]; by rewrite Hq.
Qed.

Lemma pg_fresh_validated {A : Type} (d : Postgres.driver)
    (cfg : gmap string string) (name label : string) (k : M A) :
  pg_fresh_run d cfg (k (Postgres.init cfg)) ->
  pg_fresh_run d cfg ((lift (validate_name name label) ;; k) (Postgres.init cfg)).
Proof.
  intros Hk.
  destruct (validated_cases (S:=Postgres.DatabaseManager) (E:=Postgres.event)
              name label k (Postgres.init cfg)) as [[_ ->]|[_ ->]];
    [exact Hk|].
  unfold pg_fresh_run, trace, fields. simpl.
  split; [tauto|]. split; [by intros c q p []|].
  left. split; [done|]. by intros [[c []] _].
Qed.

(** What [with get_db() as db] makes of a call on the fresh manager. *)
Lemma pg_with_get_db_run {A : Type} (environ : gmap string string)
    (d : Postgres.driver) (body : M A) :
  (forall cfg, pg_fresh_run d cfg (body (Postgres.init cfg))) ->
  pg_closes_what_it_opens d (PostgresMain.with_get_db environ body).2
  /\ pg_exec_readonly (PostgresMain.with_get_db environ body).2.
Proof.
  intros Hbody. unfold PostgresMain.with_get_db.
  rewrite pg_get_db_enter_spec.
  destruct (credentials_present environ); simpl.
  2: { split; [|by intros c q p []].
       split; [by intros [c []]|tauto]. }
  specialize (Hbody (PostgresMain.get_db_config environ)).
  destruct (body (Postgres.init (PostgresMain.get_db_config environ)))
    as [[r db1] t1].
  destruct Hbody as (Hnc & Hro & [[Hf Hnot]|(Hok & Hcalled & ro & Hf)]);
    unfold trace, fields in *; simpl in *; subst db1.
  - rewrite pg_close_fresh. simpl. rewrite app_nil_r.
    split; [|exact Hro]. split; [|done].
    intros Hcalled Hok. destruct Hnot. done.
  - rewrite pg_close_open. simpl. split.
    + split.
      * intros _ _. by exists t1.
      * intros Hnot. destruct Hnot. split; [|done].
        destruct Hcalled as [c Hc]. exists c. apply in_or_app. by left.
    + intros c q p Hin. apply in_app_or in Hin as [Hin|Hin];
        [exact (Hro c q p Hin)|].
      simpl in Hin. intuition discriminate.
Qed.

Ltac pg_tool_bodies :=
  unfold PostgresMain.list_schemas, PostgresMain.list_tables,
    PostgresMain.describe_table, PostgresMain.get_table_indexes,
    PostgresMain.get_table_constraints,
    Postgres.list_schemas, Postgres.list_tables, Postgres.describe_table,
    Postgres.get_table_indexes, Postgres.get_table_constraints.

Ltac pg_fresh_tool :=
  intros cfg; repeat apply pg_fresh_validated; apply pg_fresh_body.


(** X23.  Every query that a tool call of the relational entry point sends,
    whatever the environment, the arguments and the server's answers, is
    sent on an open connection that was marked read-only: each call works on
    a manager of its own, and a session that could not be marked read-only
    is closed without a query. *)
Theorem pg_tool_queries_readonly (environ : gmap string string)
    (d : Postgres.driver) (schema table : string) :
  pg_exec_readonly (PostgresMain.list_schemas environ d).2
  /\ pg_exec_readonly (PostgresMain.list_tables environ d schema).2
  /\ pg_exec_readonly (PostgresMain.describe_table environ d schema table).2
  /\ pg_exec_readonly (PostgresMain.get_table_indexes environ d schema table).2
  /\ pg_exec_readonly
       (PostgresMain.get_table_constraints environ d schema table).2.
Proof.
  pg_tool_bodies.
  split; [|split; [|split; [|split]]];
    refine (proj2 (pg_with_get_db_run environ d _ _)); pg_fresh_tool.
Qed.

(** ** The wide-column tools *)




Lemma sc_query_cases {A B : Type} (what : string) (q : Scylla.query)
    (params : list string) (answer : result A) (f : A -> B)
    (m : Scylla.DatabaseManager) :
  Scylla.needs_connect m = false ->
  Scylla.logged what (r <- Scylla.session_execute q params answer ;; ret (f r)) m
  = match answer with
    | Return rows => (Return (f rows), m, [Scylla.Execute q params])
    | Raise e => (Raise e, m,
                  [Scylla.Execute q params;
                   Scylla.LogError (what ++ ": " ++ exn_str e)])
    end.
Proof.
  intros Hlive. destruct answer as [rows|e].
  - by apply sc_query_returns.
  - unfold Scylla.needs_connect in Hlive.
    unfold Scylla.logged, try_except, Scylla.session_execute, bind, get, lift,
      emit, raise, ret.
    destruct (Scylla.the_session m) as [s|]; [|discriminate].
    rewrite Hlive. reflexivity.
Qed.



(** A call on a fresh wide-column manager, once its arguments are
    validated. *)
Lemma sc_fresh_body {A B : Type} (d : Scylla.driver) (cfg : gmap string string)
    (what : string) (q : Scylla.query) (params : list string)
    (answer : result A) (f : A -> B) :
  sc_fresh_run d cfg
    ((Scylla.connect d ;;
      Scylla.logged what
        (r <- Scylla.session_execute q params answer ;; ret (f r)))
       (Scylla.init cfg)).
Proof.
  unfold sc_fresh_run.
  destruct (sc_connect_cases d (Scylla.init cfg))
    as [[H _]|[_ [(e' & _ & H)|(port & _ & [(e' & He & H)|[(Hnew & e' & He & H)|(Hnew & Hco & H)]])]]];
    [discriminate|..]; simpl in H.
  - rewrite (bind_raise _ _ _ _ _ _ H).
    unfold trace, fields, sc_connect_log. simpl.
    split; [intuition discriminate|]. split; [intuition discriminate|].
    left. split; [done|]. intros [(cp & p & a & Hin) _].
    simpl in Hin. intuition discriminate.
  - rewrite (bind_raise _ _ _ _ _ _ H).
    unfold trace, fields, sc_connect_log, sc_new_cluster. simpl.
    split; [intuition discriminate|]. split; [intuition discriminate|].
    left. split; [done|]. intros [_ Hok]. rewrite He in Hok. discriminate.
  - rewrite (bind_raise _ _ _ _ _ _ H).
    unfold trace, fields, sc_connect_log, sc_new_cluster. simpl.
    split; [intuition discriminate|]. split; [intuition discriminate|].
    right. left. split; [done|].
    split; [do 3 eexists; by left|].
    split; [by rewrite He|done].
  - rewrite (bind_return _ _ _ _ _ _ H).
    rewrite (sc_query_cases what q params answer f) by reflexivity.
    unfold trace, fields, sc_new_cluster.
    destruct answer as [rows|e]; simpl;
      (split; [intuition discriminate|]); (split; [intuition discriminate|]);
      right; right; (split; [done|]);
      (split; [do 3 eexists; by left|done]).
Qed.

Lemma sc_fresh_validated {A : Type} (d : Scylla.driver)
    (cfg : gmap string string) (name label : string) (k : M A) :
  sc_fresh_run d cfg (k (Scylla.init cfg)) ->
  sc_fresh_run d cfg ((lift (validate_name name label) ;; k) (Scylla.init cfg)).
Proof.
  intros Hk.
  destruct (validated_cases (S:=Scylla.DatabaseManager) (E:=Scylla.event)
              name label k (Scylla.init cfg)) as [[_ ->]|[_ ->]];
    [exact Hk|].
  unfold sc_fresh_run, trace, fields. simpl.
  split; [tauto|]. split; [tauto|].
  left. split; [done|]. by intros [(cp & p & a & []) _].
Qed.

Lemma sc_with_get_db_run {A : Type} (environ : gmap string string)
    (d : Scylla.driver) (body : M A) :
  (forall cfg, sc_fresh_run d cfg (body (Scylla.init cfg))) ->
  sc_shuts_down_what_it_builds d (ScyllaMain.with_get_db environ body).2.
Proof.
  intros Hbody. unfold ScyllaMain.with_get_db, ScyllaMain.get_db_enter.
  specialize (Hbody (ScyllaMain.get_db_config environ)).
  destruct (body (Scylla.init (ScyllaMain.get_db_config environ)))
    as [[r db1] t1].
  destruct Hbody
    as (Hnc & Hns & [[Hf Hnot]|[(Hok & Hb & Hco & Hf)|(Hok & Hb & Hco & Hf)]]);
    unfold trace, fields in *; simpl in *; subst db1; simpl.
  - rewrite app_nil_r. split; [|done]. intros Hb Hok. destruct Hnot. done.
  - split.
    + intros _ _. exists t1. split; [done|]. split; [done|]. by right.
    + intros Hnot. destruct Hnot. split; [|done].
      destruct Hb as (cp & p & a & Hin). exists cp, p, a.
      apply in_or_app. by left.
  - split.
    + intros _ _. exists t1. split; [done|]. split; [done|]. by left.
    + intros Hnot. destruct Hnot. split; [|done].
      destruct Hb as (cp & p & a & Hin). exists cp, p, a.
      apply in_or_app. by left.
Qed.

(** X25.  Every tool call of the wide-column entry point shuts down what it
    builds, whatever the environment, the arguments and the cluster's
    answers: when [Cluster(...)] was called and returned, the call ends with
    [cluster.shutdown()], preceded by [session.shutdown()] exactly when
    [cluster.connect()] had returned a session, even when connecting or the
    query failed; when no cluster was built nothing is shut down. *)
Theorem sc_tools_shut_down_what_they_build (environ : gmap string string)
    (d : Scylla.driver) (keyspace table : string) :
  sc_shuts_down_what_it_builds d (ScyllaMain.list_keyspaces environ d).2
  /\ sc_shuts_down_what_it_builds d
       (ScyllaMain.list_tables environ d keyspace).2
  /\ sc_shuts_down_what_it_builds d
       (ScyllaMain.describe_table environ d keyspace table).2
  /\ sc_shuts_down_what_it_builds d
       (ScyllaMain.get_table_indexes environ d keyspace table).2
  /\ sc_shuts_down_what_it_builds d
       (ScyllaMain.get_materialized_views environ d keyspace).2.
Proof.
  unfold ScyllaMain.list_keyspaces, ScyllaMain.list_tables,
    ScyllaMain.describe_table, ScyllaMain.get_table_indexes,
    ScyllaMain.get_materialized_views,
    Scylla.list_keyspaces, Scylla.list_tables, Scylla.describe_table,
    Scylla.get_table_indexes, Scylla.get_materialized_views.
  split; [|split; [|split; [|split]]];
    refine (sc_with_get_db_run environ d _ _);
    intros cfg; repeat apply sc_fresh_validated; apply sc_fresh_body.
Qed.

(** ** What the schema listing leaves out *)

Lemma sql_like_two_percent (s : string) : Postgres.sql_like "%%" s = true.
Proof.
  change (Postgres.sql_like "%%" s) with
    ((fix skip (s : string) : bool :=
        Postgres.sql_like "%" s
        || match s with EmptyString => false | String _ s' => skip s' end) s).
  destruct s; by rewrite sql_like_any.
Qed.

Lemma prefix_cons (a b : ascii) (s t : string) :
  String.prefix (String a s) (String b t) = true ->
  b = a /\ String.prefix s t = true.
Proof.
  change (String.prefix (String a s) (String b t))
    with (if ascii_dec a b then String.prefix s t else false).
  by destruct (ascii_dec a b) as [->|].
Qed.

Lemma prefix_nil (a : ascii) (s : string) :
  String.prefix (String a s) "" = true -> False.
Proof. discriminate. Qed.

Ltac strip_prefix H :=
  repeat
    match type of H with
    | String.prefix (String _ _) ?n = true =>
        let c := fresh "c" in
        let n' := fresh "n" in
        destruct n as [|c n']; [destruct (prefix_nil _ _ H)|];
        apply prefix_cons in H as [-> H]
    end.

(** A name that begins with pg_toast or pg_temp matches the pattern of the
    query that is meant for it. *)
Lemma sql_like_prefix (name : string) :
  (String.prefix "pg_toast" name = true ->
   Postgres.sql_like "pg_toast%%" name = true)
  /\ (String.prefix "pg_temp" name = true ->
      Postgres.sql_like "pg_temp%%" name = true).
Proof.
  split; intros H; strip_prefix H; cbn; apply sql_like_two_percent.
Qed.

(** X26.  When the connection is there and the server evaluates the schema
    query on its catalog, [list_schemas] returns names of the catalog in
    ascending order and never a system schema: neither information_schema
    nor pg_catalog, nor any name that begins with pg_toast or pg_temp. *)
Theorem pg_list_schemas_no_system_schema (d : Postgres.driver)
    (m : Postgres.DatabaseManager) (catalog : list string) :
  outcome (Postgres.connect d m) = Return tt ->
  Postgres.on_schemata d = Return (Postgres.schemata_select catalog) ->
  exists out,
    outcome (Postgres.list_schemas d m) = Return out
    /\ Sorted str_le out
    /\ (forall name, In name out ->
          In name catalog /\ visible_schema name = true).
Proof.
  intros Hc Hans.
  destruct (pg_list_schemas_run d m catalog Hc Hans) as (out & Hout & Hs & Hin).
  exists out. split; [done|]. split; [done|].
  intros name Hname. apply Hin in Hname as [Hcat Hwhere].
  split; [done|].
  unfold Postgres.schemata_where in Hwhere. unfold visible_schema.
  apply andb_true_iff in Hwhere as [Hwhere Htemp].
  apply andb_true_iff in Hwhere as [Hnames Htoast].
  rewrite Hnames. simpl.
  destruct (sql_like_prefix name) as [H1 H2].
  destruct (String.prefix "pg_toast" name).
  { rewrite H1 in Htoast by done. discriminate. }
  destruct (String.prefix "pg_temp" name); [|done].
  rewrite H2 in Htemp by done. discriminate.
Qed.

Lemma pg_list_schemas_no_system_schema_witness :
  exists out,
    outcome (Postgres.list_schemas
               (Postgres.serving ["sales"; "pg_toast_temp_1"; "pg_catalog";
                                  "public"])
               (Postgres.init ∅)) = Return out
    /\ Sorted str_le out
    /\ (forall name, In name out ->
          In name ["sales"; "pg_toast_temp_1"; "pg_catalog"; "public"]
          /\ visible_schema name = true).
Proof.
  apply (pg_list_schemas_no_system_schema
           (Postgres.serving ["sales"; "pg_toast_temp_1"; "pg_catalog";
                              "public"])
           (Postgres.init ∅)); reflexivity.
Defined.
